(** * DM replication filter and pre-check unit: a shallow embedding

    This development embeds in Rocq the table filter of [pkg/filter]
    ([Rules], [Filter], [New], [ApplyOn]), the binlog event filter of
    [syncer/filter.go] ([skipQuery], [skipDDLEvent], [skipDMLEvent]) and
    the pre-check unit of [checker/checker.go] ([Process], [Close],
    [Status]), and proves properties of them.

    Modelling conventions.
    - A Go [string] is a sequence of bytes, here a [string] of [ascii].
      Case mapping and regular-expression matching are modelled on ASCII
      text (identifiers and SQL keywords), where one Go rune is one byte.
    - A Go panic is the [Panic] outcome of the [result] type.
    - Pointers that may be nil ([*Filter], [*Rules], [*check.Results]) are
      [option]s; the [*Table] elements of a table list are non-nil.
    - Packages outside the repository (regexp, binlog-filter, check,
      dbutil, context, json) are modelled by what the code uses of them. *)

From Stdlib Require Import String Ascii List Bool NArith ZArith Lia.
From stdpp Require Import gmap strings.
Import ListNotations.

Set Default Proof Using "Type".

(* ===================================================================== *)
(** * Outcomes of code that may panic *)
(* ===================================================================== *)

Inductive panic :=
| IndexOutOfRange      (* s[i] with i >= len(s) *)
| RegexpCompile        (* regexp.MustCompile on a pattern that does not parse *)
| NilDereference.      (* field access through a nil pointer *)

Inductive result (A : Type) :=
| Ok (a : A)
| Panic (p : panic).
Arguments Ok {A} a.
Arguments Panic {A} p.

Definition rbind {A B} (m : result A) (k : A -> result B) : result B :=
  match m with
  | Ok a => k a
  | Panic p => Panic p
  end.

Notation "x <-! m ; k" := (rbind m (fun x => k))
  (at level 20, m at level 100, k at level 200, only parsing).

(** A Go [for _, x := range l] loop whose body updates a state and may panic. *)
Fixpoint forRange {A S} (body : S -> A -> result S) (l : list A) (s : S) : result S :=
  match l with
  | [] => Ok s
  | x :: l' => s' <-! body s x ; forRange body l' s'
  end.

(* ===================================================================== *)
(** * Package strings *)
(* ===================================================================== *)

Module Strings.

Definition is_upper (c : ascii) : bool :=
  let n := N_of_ascii c in (65 <=? n)%N && (n <=? 90)%N.

Definition is_lower (c : ascii) : bool :=
  let n := N_of_ascii c in (97 <=? n)%N && (n <=? 122)%N.

Definition is_digit (c : ascii) : bool :=
  let n := N_of_ascii c in (48 <=? n)%N && (n <=? 57)%N.

Definition is_alnum (c : ascii) : bool :=
  is_digit c || is_upper c || is_lower c.

Definition lower_char (c : ascii) : ascii :=
  if is_upper c then ascii_of_N (N_of_ascii c + 32) else c.

(** [strings.ToLower], on ASCII text: the letters A to Z are mapped to a
    to z, and every other byte is left as it is. *)
Fixpoint ToLower (s : string) : string :=
  match s with
  | EmptyString => EmptyString
  | String c s' => String (lower_char c) (ToLower s')
  end.

(** [strings.Join] *)
Fixpoint Join (l : list string) (sep : string) : string :=
  match l with
  | [] => EmptyString
  | [x] => x
  | x :: l' => x +:+ sep +:+ Join l' sep
  end.

Definition is_empty (s : string) : bool :=
  match s with EmptyString => true | String _ _ => false end.

End Strings.

(* ===================================================================== *)
(** * Package regexp (the fragment of the RE2 syntax the rules use) *)
(* ===================================================================== *)

Module Regexp.
Import Strings.

(** Perl character classes: [\d] is [0-9], [\s] is [\t\n\f\r ], [\w] is
    [0-9A-Za-z_]. *)
Inductive perl_class := ClassDigit | ClassSpace | ClassWord.

(** The syntax tree, with the operator names of [regexp/syntax].  Capture
    groups are not recorded (they do not change whether a text matches),
    nor is greediness. *)
Inductive regex :=
| OpNoMatch
| OpEmptyMatch
| OpLiteral (foldCase : bool) (c : ascii)
| OpCharClass (negated : bool) (k : perl_class)
| OpAnyCharNotNL
| OpBeginText
| OpEndText
| OpConcat (a b : regex)
| OpAlternate (a b : regex)
| OpStar (a : regex)
| OpPlus (a : regex)
| OpQuest (a : regex).

Definition in_class (k : perl_class) (c : ascii) : bool :=
  let n := N_of_ascii c in
  match k with
  | ClassDigit => is_digit c
  | ClassSpace => (n =? 9)%N || (n =? 10)%N || (n =? 12)%N || (n =? 13)%N || (n =? 32)%N
  | ClassWord => is_alnum c || (n =? 95)%N
  end.

(** A literal against a character of the text; case folding is that of
    the ASCII letters. *)
Definition lit_eq (foldCase : bool) (c d : ascii) : bool :=
  if foldCase then Ascii.eqb (lower_char c) (lower_char d) else Ascii.eqb c d.

(** ** Matching by derivatives

    [nullable bot eot r]: [r] matches the empty string at a position that
    is at the beginning of the text iff [bot] and at its end iff [eot]. *)
Fixpoint nullable (bot eot : bool) (r : regex) : bool :=
  match r with
  | OpNoMatch => false
  | OpEmptyMatch => true
  | OpLiteral _ _ => false
  | OpCharClass _ _ => false
  | OpAnyCharNotNL => false
  | OpBeginText => bot
  | OpEndText => eot
  | OpConcat a b => nullable bot eot a && nullable bot eot b
  | OpAlternate a b => nullable bot eot a || nullable bot eot b
  | OpStar _ => true
  | OpPlus a => nullable bot eot a
  | OpQuest _ => true
  end.

Definition cat (a b : regex) : regex :=
  match a, b with
  | OpNoMatch, _ => OpNoMatch
  | _, OpNoMatch => OpNoMatch
  | OpEmptyMatch, _ => b
  | _, _ => OpConcat a b
  end.

Definition alt (a b : regex) : regex :=
  match a, b with
  | OpNoMatch, _ => b
  | _, OpNoMatch => a
  | _, _ => OpAlternate a b
  end.

(** [deriv bot c r]: what remains of [r] after it has read the character
    [c] at a position that is at the beginning of the text iff [bot]. *)
Fixpoint deriv (bot : bool) (c : ascii) (r : regex) : regex :=
  match r with
  | OpNoMatch | OpEmptyMatch | OpBeginText | OpEndText => OpNoMatch
  | OpLiteral f d => if lit_eq f d c then OpEmptyMatch else OpNoMatch
  | OpCharClass neg k => if xorb neg (in_class k c) then OpEmptyMatch else OpNoMatch
  | OpAnyCharNotNL => if (N_of_ascii c =? 10)%N then OpNoMatch else OpEmptyMatch
  | OpConcat a b =>
      alt (cat (deriv bot c a) b)
          (if nullable bot false a then deriv bot c b else OpNoMatch)
  | OpAlternate a b => alt (deriv bot c a) (deriv bot c b)
  | OpStar a => cat (deriv bot c a) (OpStar a)
  | OpPlus a => cat (deriv bot c a) (OpStar a)
  | OpQuest a => deriv bot c a
  end.

(** [r] matches a prefix of [s], which starts at the beginning of the text
    iff [bot] and runs to its end. *)
Fixpoint match_prefix (bot : bool) (r : regex) (s : string) : bool :=
  nullable bot (is_empty s) r ||
  match s with
  | EmptyString => false
  | String c s' => match_prefix false (deriv bot c r) s'
  end.

Fixpoint search (bot : bool) (r : regex) (s : string) : bool :=
  match_prefix bot r s ||
  match s with
  | EmptyString => false
  | String _ s' => search false r s'
  end.

(** ** Parsing

    The pattern is first cut into tokens, then the tokens drive the
    operator stack of the parser of [regexp/syntax].  The fragment covers
    literals, [.], [^], [$], the escapes [\d \D \s \S \w \W \A \z], the
    control escapes [\a \f \n \r \t \v], escaped punctuation, groups
    (capturing, [(?:], [(?i:], [(?-i:]), the flag groups [(?i)] and
    [(?-i)], alternation and the repetitions [*], [+], [?] with their
    lazy forms.  Bracket classes, braces (counted repetition) and the
    other escapes and flags are outside the fragment: [Compile] gives
    [None] for them as it does for a pattern that Go rejects, and no
    statement below depends on what it gives there. *)

Inductive repop := RepStar | RepPlus | RepQuest.

Inductive token :=
| TLit (c : ascii)
| TDot
| TBeginText
| TEndText
| TPerl (negated : bool) (k : perl_class)
| TOpen (setFold : option bool)
| TFlag (foldCase : bool)
| TClose
| TBar
| TRep (op : repop).

Definition is_char (c : ascii) (d : string) : bool :=
  match d with
  | String d0 EmptyString => Ascii.eqb c d0
  | _ => false
  end.

Definition escape (e : ascii) : option token :=
  if is_char e "d" then Some (TPerl false ClassDigit)
  else if is_char e "D" then Some (TPerl true ClassDigit)
  else if is_char e "s" then Some (TPerl false ClassSpace)
  else if is_char e "S" then Some (TPerl true ClassSpace)
  else if is_char e "w" then Some (TPerl false ClassWord)
  else if is_char e "W" then Some (TPerl true ClassWord)
  else if is_char e "A" then Some TBeginText
  else if is_char e "z" then Some TEndText
  else if is_char e "a" then Some (TLit (ascii_of_N 7))
  else if is_char e "f" then Some (TLit (ascii_of_N 12))
  else if is_char e "n" then Some (TLit (ascii_of_N 10))
  else if is_char e "r" then Some (TLit (ascii_of_N 13))
  else if is_char e "t" then Some (TLit (ascii_of_N 9))
  else if is_char e "v" then Some (TLit (ascii_of_N 11))
  else if (N_of_ascii e <? 128)%N && negb (is_alnum e) then Some (TLit e)
  else None.

Definition repop_of (c : ascii) : option repop :=
  if is_char c "*" then Some RepStar
  else if is_char c "+" then Some RepPlus
  else if is_char c "?" then Some RepQuest
  else None.

Definition consTok (t : token) (r : option (list token)) : option (list token) :=
  match r with
  | Some ts => Some (t :: ts)
  | None => None
  end.

Fixpoint tokenize (s : string) : option (list token) :=
  match s with
  | EmptyString => Some []
  | String c s1 =>
    if is_char c "\" then
      match s1 with
      | EmptyString => None
      | String e s2 =>
        match escape e with
        | Some t => consTok t (tokenize s2)
        | None => None
        end
      end
    else if is_char c "(" then
      match s1 with
      | String q s2 =>
        if is_char q "?" then
          match s2 with
          | String f s3 =>
            if is_char f ":" then consTok (TOpen None) (tokenize s3)
            else if is_char f "i" then
              match s3 with
              | String g s4 =>
                if is_char g ")" then consTok (TFlag true) (tokenize s4)
                else if is_char g ":" then consTok (TOpen (Some true)) (tokenize s4)
                else None
              | EmptyString => None
              end
            else if is_char f "-" then
              match s3 with
              | String i (String g s5) =>
                if is_char i "i" then
                  if is_char g ")" then consTok (TFlag false) (tokenize s5)
                  else if is_char g ":" then consTok (TOpen (Some false)) (tokenize s5)
                  else None
                else None
              | _ => None
              end
            else None
          | EmptyString => None
          end
        else consTok (TOpen None) (tokenize s1)
      | EmptyString => Some [TOpen None]
      end
    else if is_char c ")" then consTok TClose (tokenize s1)
    else if is_char c "|" then consTok TBar (tokenize s1)
    else if is_char c "." then consTok TDot (tokenize s1)
    else if is_char c "^" then consTok TBeginText (tokenize s1)
    else if is_char c "$" then consTok TEndText (tokenize s1)
    else if is_char c "[" then None
    else if is_char c "{" then None
    else
      match repop_of c with
      | Some op =>
        match s1 with
        | String q s2 =>
          if is_char q "?" then consTok (TRep op) (tokenize s2)
          else consTok (TRep op) (tokenize s1)
        | EmptyString => Some [TRep op]
        end
      | None => consTok (TLit c) (tokenize s1)
      end
  end.

(** A group that is still open: what had been parsed when its parenthesis
    was read, and the flags to restore when it closes. *)
Record frame := Frame {
  f_alts : list regex;
  f_items : list regex;
  f_fold : bool
}.

(** The parser state: the case-folding flag, the alternatives already
    closed in the current group and the pieces of the one being read (both
    newest first), the open groups, and whether the last token was a
    repetition. *)
Record pstate := PState {
  p_fold : bool;
  p_alts : list regex;
  p_items : list regex;
  p_stack : list frame;
  p_afterRep : bool
}.

Fixpoint concat_of (l : list regex) : regex :=
  match l with
  | [] => OpEmptyMatch
  | [x] => x
  | x :: l' => OpConcat x (concat_of l')
  end.

Fixpoint alternate_of (l : list regex) : regex :=
  match l with
  | [] => OpNoMatch
  | [x] => x
  | x :: l' => OpAlternate x (alternate_of l')
  end.

Definition collapse (alts items : list regex) : regex :=
  alternate_of (rev (concat_of (rev items) :: alts)).

Definition repeat (op : repop) (r : regex) : regex :=
  match op with
  | RepStar => OpStar r
  | RepPlus => OpPlus r
  | RepQuest => OpQuest r
  end.

Definition push (r : regex) (st : pstate) : pstate :=
  PState (p_fold st) (p_alts st) (r :: p_items st) (p_stack st) false.

Definition pstep (st : pstate) (t : token) : option pstate :=
  match t with
  | TLit c => Some (push (OpLiteral (p_fold st) c) st)
  | TDot => Some (push OpAnyCharNotNL st)
  | TBeginText => Some (push OpBeginText st)
  | TEndText => Some (push OpEndText st)
  | TPerl neg k => Some (push (OpCharClass neg k) st)
  | TOpen setFold =>
      Some (PState (match setFold with Some b => b | None => p_fold st end)
                   [] []
                   (Frame (p_alts st) (p_items st) (p_fold st) :: p_stack st)
                   false)
  | TFlag b => Some (PState b (p_alts st) (p_items st) (p_stack st) false)
  | TClose =>
      match p_stack st with
      | [] => None
      | fr :: stk =>
          Some (PState (f_fold fr) (f_alts fr)
                       (collapse (p_alts st) (p_items st) :: f_items fr)
                       stk false)
      end
  | TBar =>
      Some (PState (p_fold st) (concat_of (rev (p_items st)) :: p_alts st) []
                   (p_stack st) false)
  | TRep op =>
      if p_afterRep st then None
      else match p_items st with
           | [] => None
           | x :: rest =>
               Some (PState (p_fold st) (p_alts st) (repeat op x :: rest)
                            (p_stack st) true)
           end
  end.

Fixpoint prun (st : pstate) (ts : list token) : option pstate :=
  match ts with
  | [] => Some st
  | t :: ts' =>
      match pstep st t with
      | Some st' => prun st' ts'
      | None => None
      end
  end.

Definition pfinish (st : pstate) : option regex :=
  match p_stack st with
  | [] => Some (collapse (p_alts st) (p_items st))
  | _ :: _ => None
  end.

Definition pinit : pstate := PState false [] [] [] false.

(** [regexp.Compile]: [None] stands for its error. *)
Definition Compile (expr : string) : option regex :=
  match tokenize expr with
  | Some ts =>
      match prun pinit ts with
      | Some st => pfinish st
      | None => None
      end
  | None => None
  end.

(** [regexp.MustCompile] panics where [Compile] fails. *)
Definition MustCompile (expr : string) : result regex :=
  match Compile expr with
  | Some r => Ok r
  | None => Panic RegexpCompile
  end.

(** [Regexp.MatchString]: the text contains a match of [r]. *)
Definition MatchString (r : regex) (s : string) : bool := search true r s.

(** [Regexp.FindStringIndex(s) != nil] *)
Definition FindStringIndex_found (r : regex) (s : string) : bool := search true r s.

End Regexp.

(* ===================================================================== *)
(** * Package filter (pkg/filter): do/ignore rules on schemas and tables *)
(* ===================================================================== *)

Module filter.
Import Strings Regexp.

(** Table represents a table. *)
Record Table := mkTable {
  Schema : string;
  Name : string
}.

(** Rules contains Filter rules. *)
Record Rules := mkRules {
  DoTables : list Table;
  DoDBs : list string;
  IgnoreTables : list Table;
  IgnoreDBs : list string
}.

Definition lowerTable (t : Table) : Table :=
  mkTable (ToLower (Schema t)) (ToLower (Name t)).

(** [Rules.ToLower] converts all entries to lowercase, in place; the model
    returns the rules as they are afterwards. *)
Definition ToLower (r : option Rules) : option Rules :=
  match r with
  | None => None
  | Some r =>
      Some (mkRules (map lowerTable (DoTables r))
                    (map Strings.ToLower (DoDBs r))
                    (map lowerTable (IgnoreTables r))
                    (map Strings.ToLower (IgnoreDBs r)))
  end.

(** Filter implements whitelist and blacklist filters. *)
Record Filter := mkFilter {
  patternMap : gmap string regex;
  rules : option Rules
}.

(** The source text of the regular expression that [addOneRegex] compiles
    for a non-empty pattern whose first character is [c]. *)
Definition regexSource (c : ascii) (rest : string) : string :=
  if negb (is_char c "~") then "(?i)^" +:+ String c rest +:+ "$"
  else "(?i)" +:+ rest.

Definition addOneRegex (f : Filter) (originStr : string) : result Filter :=
  match patternMap f !! originStr with
  | Some _ => Ok f
  | None =>
      match originStr with
      | EmptyString => Panic IndexOutOfRange
      | String c rest =>
          re <-! MustCompile (regexSource c rest) ;
          Ok (mkFilter (<[originStr := re]> (patternMap f)) (rules f))
      end
  end.

Definition addTableRegex (f : Filter) (table : Table) : result Filter :=
  f1 <-! addOneRegex f (Schema table) ;
  addOneRegex f1 (Name table).

Definition genRegexMap (f : Filter) : result Filter :=
  match rules f with
  | None => Ok f
  | Some r =>
      f1 <-! forRange addOneRegex (DoDBs r) f ;
      f2 <-! forRange addTableRegex (DoTables r) f1 ;
      f3 <-! forRange addOneRegex (IgnoreDBs r) f2 ;
      forRange addTableRegex (IgnoreTables r) f3
  end.

(** New creates a filter use the rules. *)
Definition New (rules : option Rules) : result Filter :=
  genRegexMap (mkFilter ∅ rules).

(** The methods below are only reached from [ApplyOn] once [f.rules] is
    known to be non-nil: [r] is the value it points to. *)
Section Methods.
Variable f : Filter.
Variable r : Rules.

Definition matchString (pattern t : string) : bool :=
  match patternMap f !! pattern with
  | Some re => MatchString re t
  | None => String.eqb pattern t
  end.

Fixpoint matchDB (patternDBS : list string) (a : string) : bool :=
  match patternDBS with
  | [] => false
  | b :: rest => if matchString b a then true else matchDB rest a
  end.

Fixpoint matchTable (patternTBS : list Table) (tb : Table) : bool :=
  match patternTBS with
  | [] => false
  | ptb :: rest =>
      if matchString (Schema ptb) (Schema tb) && matchString (Name ptb) (Name tb)
      then true
      else matchTable rest tb
  end.

Definition findMatchedDoDBs (tb : Table) : bool := matchDB (DoDBs r) (Schema tb).
Definition findMatchedIgnoreDBs (tb : Table) : bool := matchDB (IgnoreDBs r) (Schema tb).
Definition findMatchedDoTables (tb : Table) : bool := matchTable (DoTables r) tb.
Definition findMatchedIgnoreTables (tb : Table) : bool := matchTable (IgnoreTables r) tb.

Definition filterOnSchemas (tb : Table) : bool :=
  if (0 <? length (DoDBs r))%nat then
    if negb (findMatchedDoDBs tb) then false else true
  else if (0 <? length (IgnoreDBs r))%nat then
    if findMatchedIgnoreDBs tb then false else true
  else true.

Definition filterOnTables (tb : Table) : bool :=
  if (String.length (Name tb) =? 0)%nat then true
  else if (0 <? length (DoTables r))%nat && findMatchedDoTables tb then true
  else if (0 <? length (IgnoreTables r))%nat && findMatchedIgnoreTables tb then false
  else (length (DoTables r) =? 0)%nat.

Fixpoint applyLoop (stbs : list Table) : list Table :=
  match stbs with
  | [] => []
  | tb :: rest =>
      if filterOnSchemas tb && filterOnTables tb
      then tb :: applyLoop rest
      else applyLoop rest
  end.
End Methods.

(** ApplyOn applies filter rules on tables. *)
Definition ApplyOn (f : option Filter) (stbs : list Table) : list Table :=
  match f with
  | None => stbs
  | Some f =>
      match rules f with
      | None => stbs
      | Some r => applyLoop f r stbs
      end
  end.

End filter.

(* ===================================================================== *)
(** * Packages binlog-filter and replication: what the syncer uses *)
(* ===================================================================== *)

Module bf.

(** The event types of the binlog filter that the syncer names, and the
    DDL event types [AstToDDLEvent] may return. *)
Inductive EventType :=
| NullEvent
| InsertEvent
| UpdateEvent
| DeleteEvent
| DDLEvent (kind : nat).

Inductive ActionType := Ignore | Do.

Definition is_Ignore (a : ActionType) : bool :=
  match a with Ignore => true | Do => false end.

End bf.

Module replication.

(** [type EventType byte], with the event codes of the MySQL binlog. *)
Definition EventType := N.

Definition TABLE_MAP_EVENT : EventType := 19%N.
Definition WRITE_ROWS_EVENTv0 : EventType := 20%N.
Definition UPDATE_ROWS_EVENTv0 : EventType := 21%N.
Definition DELETE_ROWS_EVENTv0 : EventType := 22%N.
Definition WRITE_ROWS_EVENTv1 : EventType := 23%N.
Definition UPDATE_ROWS_EVENTv1 : EventType := 24%N.
Definition DELETE_ROWS_EVENTv1 : EventType := 25%N.
Definition WRITE_ROWS_EVENTv2 : EventType := 30%N.
Definition UPDATE_ROWS_EVENTv2 : EventType := 31%N.
Definition DELETE_ROWS_EVENTv2 : EventType := 32%N.

End replication.

(* ===================================================================== *)
(** * Package syncer: the binlog event filter (syncer/filter.go) *)
(* ===================================================================== *)

Module syncer.
Import Strings Regexp.

Definition builtInSkipDDLs : list string := [
  "^#";
  "^SAVEPOINT";
  "^FLUSH";
  "^OPTIMIZE\s+TABLE";
  "^ANALYZE\s+TABLE";
  "^REPAIR\s+TABLE";
  "^DROP\s+(\/\*\!40005\s+)?TEMPORARY\s+(\*\/\s+)?TABLE";
  "^CREATE\s+(DEFINER\s?=.+?)?TRIGGER";
  "^DROP\s+TRIGGER";
  "^DROP\s+PROCEDURE";
  "^CREATE\s+(DEFINER\s?=.+?)?PROCEDURE";
  "^ALTER\s+PROCEDURE";
  "^CREATE\s*(OR REPLACE)?\s+(ALGORITHM\s?=.+?)?(DEFINER\s?=.+?)?\s+(SQL SECURITY DEFINER)?VIEW";
  "^DROP\s+VIEW";
  "^ALTER\s+(ALGORITHM\s?=.+?)?(DEFINER\s?=.+?)?(SQL SECURITY DEFINER)?VIEW";
  "^CREATE\s+(AGGREGATE)?\s*?FUNCTION";
  "^CREATE\s+(DEFINER\s?=.+?)?FUNCTION";
  "^ALTER\s+FUNCTION";
  "^DROP\s+FUNCTION";
  "^CREATE\s+TABLESPACE";
  "^ALTER\s+TABLESPACE";
  "^DROP\s+TABLESPACE";
  "^GRANT";
  "^REVOKE";
  "^CREATE\s+USER";
  "^ALTER\s+USER";
  "^RENAME\s+USER";
  "^DROP\s+USER";
  "^SET\s+PASSWORD";
  "^ALTER DATABASE"
]%string.

Definition builtInSkipDDLSource : string :=
  "(?i)" +:+ Join builtInSkipDDLs "|".

(** The package-level [builtInSkipDDLPatterns], compiled by [init]. *)
Definition builtInSkipDDLPatterns : regex :=
  Eval vm_compute in
    match Compile builtInSkipDDLSource with
    | Some r => r
    | None => OpNoMatch
    end.

(** What is formatted into an error message. *)
Inductive fmtArg :=
| ArgString (s : string)
| ArgRowEvent (et : replication.EventType)
| ArgDDLEvent (et : bf.EventType).

(** Go [error] values: the errors of the binlog filter, [errors.Errorf]
    and [errors.Annotatef] with their format and arguments. *)
Inductive error :=
| FilterError (code : nat)
| Errorf (format : string) (args : list fmtArg)
| Annotatef (cause : error) (format : string) (args : list fmtArg).

(** [BinlogEvent.Filter(schema, table, event, ddlEvent, rawQuery)] *)
Definition BinlogEvent : Type :=
  string -> string -> bf.EventType -> bf.EventType -> string ->
  bf.ActionType * option error.

(** The fields of [Syncer] that the event filter reads. *)
Record Syncer := mkSyncer {
  bwList : option filter.Filter;
  binlogFilter : option BinlogEvent
}.

Section EventFilter.
(** [filter.IsSystemSchema], whose file is not part of this development. *)
Variable IsSystemSchema : string -> bool.
(** [ast.StmtNode] and [bf.AstToDDLEvent]. *)
Variable StmtNode : Type.
Variable AstToDDLEvent : StmtNode -> bf.EventType.

(** The loop [for _, table := range tables] over calls of the binlog
    filter: the first error or [Ignore] ends it. *)
Fixpoint filterEach (call : filter.Table -> bf.ActionType * option error)
         (annotate : filter.Table -> error -> error)
         (tables : list filter.Table) : bool * option error :=
  match tables with
  | [] => (false, None)
  | table :: rest =>
      match call table with
      | (_, Some err) => (false, Some (annotate table err))
      | (action, None) =>
          if bf.is_Ignore action then (true, None)
          else filterEach call annotate rest
      end
  end.

Definition skipQuery (s : Syncer) (tables : list filter.Table) (sql : string)
  : bool * option error :=
  if FindStringIndex_found builtInSkipDDLPatterns sql then (true, None)
  else if existsb (fun table => IsSystemSchema (filter.Schema table)) tables
  then (true, None)
  else if (0 <? length tables)%nat
          && (length (filter.ApplyOn (bwList s) tables) =? 0)%nat
  then (true, None)
  else
    match binlogFilter s with
    | None => (false, None)
    | Some flt =>
        let first :=
          if (length tables =? 0)%nat then
            match flt "" "" bf.NullEvent bf.NullEvent sql with
            | (_, Some err) =>
                (false, Some (Annotatef err "skip query %s" [ArgString sql]))
            | (action, None) => (bf.is_Ignore action, None)
            end
          else (false, None) in
        match first with
        | (false, None) =>
            filterEach
              (fun table =>
                 flt (filter.Schema table) (filter.Name table)
                     bf.NullEvent bf.NullEvent sql)
              (fun table err =>
                 Annotatef err "skip query %s on `%s`.`%s`"
                   [ArgString sql; ArgString (filter.Schema table);
                    ArgString (filter.Name table)])
              tables
        | r => r
        end
    end.

Definition skipDDLEvent (s : Syncer) (tables : list filter.Table) (stmt : StmtNode)
  : bool * option error :=
  if existsb (fun table => IsSystemSchema (filter.Schema table)) tables
  then (true, None)
  else if (0 <? length tables)%nat
          && (length (filter.ApplyOn (bwList s) tables) =? 0)%nat
  then (true, None)
  else
    match binlogFilter s with
    | None => (false, None)
    | Some flt =>
        let et := AstToDDLEvent stmt in
        let first :=
          if (length tables =? 0)%nat then
            match flt "" "" bf.NullEvent et "" with
            | (_, Some err) =>
                (false, Some (Annotatef err "skip query event %s" [ArgDDLEvent et]))
            | (action, None) => (bf.is_Ignore action, None)
            end
          else (false, None) in
        match first with
        | (false, None) =>
            filterEach
              (fun table =>
                 flt (filter.Schema table) (filter.Name table) bf.NullEvent et "")
              (fun table err =>
                 Annotatef err "skip query event %s on `%s`.`%s`"
                   [ArgDDLEvent et; ArgString (filter.Schema table);
                    ArgString (filter.Name table)])
              tables
        | r => r
        end
    end.

(** The [switch eventType] of [skipDMLEvent]; [None] is its default case. *)
Definition rowEventType (eventType : replication.EventType) : option bf.EventType :=
  if (eventType =? replication.WRITE_ROWS_EVENTv0)%N
     || (eventType =? replication.WRITE_ROWS_EVENTv1)%N
     || (eventType =? replication.WRITE_ROWS_EVENTv2)%N then Some bf.InsertEvent
  else if (eventType =? replication.UPDATE_ROWS_EVENTv0)%N
     || (eventType =? replication.UPDATE_ROWS_EVENTv1)%N
     || (eventType =? replication.UPDATE_ROWS_EVENTv2)%N then Some bf.UpdateEvent
  else if (eventType =? replication.DELETE_ROWS_EVENTv0)%N
     || (eventType =? replication.DELETE_ROWS_EVENTv1)%N
     || (eventType =? replication.DELETE_ROWS_EVENTv2)%N then Some bf.DeleteEvent
  else None.

Definition skipDMLEvent (s : Syncer) (schema table : string)
           (eventType : replication.EventType) : bool * option error :=
  if IsSystemSchema schema then (true, None)
  else
    let schema := ToLower schema in
    let table := ToLower table in
    let tbs := filter.ApplyOn (bwList s) [filter.mkTable schema table] in
    if (length tbs =? 0)%nat then (true, None)
    else
      match binlogFilter s with
      | None => (false, None)
      | Some flt =>
          match rowEventType eventType with
          | None =>
              (false,
               Some (Errorf "[syncer] invalid replication event type %v"
                            [ArgRowEvent eventType]))
          | Some et =>
              match flt schema table et bf.NullEvent "" with
              | (_, Some err) =>
                  (false,
                   Some (Annotatef err "skip row event %s on `%s`.`%s`"
                           [ArgRowEvent eventType; ArgString schema;
                            ArgString table]))
              | (action, None) => (bf.is_Ignore action, None)
              end
          end
      end.
End EventFilter.

End syncer.

(* ===================================================================== *)
(** * Package checker: the pre-check unit (checker/checker.go) *)
(* ===================================================================== *)

Module pb.

Inductive ErrorType := ErrorType_UnknownError | ErrorType_ExecSQL | ErrorType_CheckFailed.

Inductive UnitType :=
| UnitType_InvalidUnit | UnitType_Check | UnitType_Dump | UnitType_Load
| UnitType_Sync | UnitType_Relay.

Record ProcessError := mkProcessError {
  Type_ : ErrorType;
  Msg : string
}.

Record ProcessResult := mkProcessResult {
  IsCanceled : bool;
  Errors : list ProcessError;
  Detail : string
}.

Record CheckStatus := mkCheckStatus {
  cs_Passed : bool;
  cs_Total : Z;
  cs_Failed : Z;
  cs_Successful : Z;
  cs_Warning : Z;
  cs_Detail : string
}.

End pb.

Module check.

(** [check.Summary]; the counters are [int64]. *)
Record Summary := mkSummary {
  Passed : bool;
  Total : Z;
  Successful : Z;
  Failed : Z;
  Warning : Z
}.

(** [check.Results]: the results of the single checks, kept opaque, and
    their summary. *)
Record Results := mkResults {
  Results_ : list nat;
  Summary_ : Summary
}.

End check.

Module checker.

(** A [*sql.DB] handle and a [*dbutil.DBConfig]. *)
Definition DB := nat.
Definition DBConfig := string.
(** A [*config.SubTaskConfig] and a [check.Checker] of the check list. *)
Definition SubTaskConfig := nat.
Definition CheckItem := nat.

Record mysqlInstance := mkInstance {
  cfg : SubTaskConfig;
  sourceDB : option DB;
  sourceDBinfo : option DBConfig;
  targetDB : option DB;
  targetDBInfo : option DBConfig
}.

(** Checker performs pre-check of data synchronization.  [closed] is the
    atomic flag, [detail] the field [result.detail] behind the RWMutex. *)
Record Checker := mkChecker {
  closed : bool;
  instances : list mysqlInstance;
  checkList : list CheckItem;
  detail : option check.Results
}.

(** What a method does to the outside, in order. *)
Inductive event :=
| EvSend (pr : pb.ProcessResult)              (* pr <- ... *)
| EvCloseDB (db : DB)                         (* dbutil.CloseDB(db) *)
| EvLogError (format : string) (info : option DBConfig) (err : nat)
| EvLogWarn (msg : string).

(** The collaborators of the unit: [check.Do] on a check list, whether the
    derived one-minute context is done when [Process] looks at it after
    the checks, [json.Marshal] of the results, and [dbutil.CloseDB]
    ([None] is a nil error). *)
Record world := mkWorld {
  Do : list CheckItem -> check.Results;
  cctxDone : bool;
  Marshal : check.Results -> string * option nat;
  CloseDB : DB -> option nat;
  showErr : nat -> string
}.

(** Modelled from the spec: [unit.NewProcessError], whose file is not among
    the sources, builds the process error of the given type and message
    (the message [ProcessError] of dmworker.proto). *)
Definition NewProcessError (errorType : pb.ErrorType) (msg : string) : pb.ProcessError :=
  pb.mkProcessError errorType msg.

(** NewChecker returns a checker. *)
Definition NewChecker (cfgs : list SubTaskConfig) : Checker :=
  mkChecker false
            (map (fun cfg => mkInstance cfg None None None None) cfgs)
            [] None.

(** [int32(x)] of an [int64]. *)
Definition int32 (x : Z) : Z := ((x + 2 ^ 31) mod 2 ^ 32 - 2 ^ 31)%Z.

Section Unit.
Variable w : world.

(** Process implements Unit interface. *)
Definition Process (c : Checker) : Checker * list event :=
  let isCanceled := false in
  let errs : list pb.ProcessError := [] in
  let result := Do w (checkList c) in
  let errs :=
    if negb (check.Passed (check.Summary_ result))
    then errs ++ [NewProcessError pb.ErrorType_CheckFailed
                    "check was failed, please see detail"]
    else errs in
  let isCanceled := if cctxDone w then true else isCanceled in
  let rawResult :=
    match Marshal w result with
    | (_, Some err) => ("marshal error " +:+ showErr w err)%string
    | (raw, None) => raw
    end in
  let c' := mkChecker (closed c) (instances c) (checkList c) (Some result) in
  (c', [EvSend (pb.mkProcessResult isCanceled errs rawResult)]).

Definition closeOne (db : option DB) (format : string) (info : option DBConfig)
  : list event :=
  match db with
  | None => []
  | Some db =>
      EvCloseDB db ::
      match CloseDB w db with
      | Some err => [EvLogError format info err]
      | None => []
      end
  end.

Definition closeInstance (instance : mysqlInstance) : list event :=
  closeOne (sourceDB instance) "close source db %+v error %v" (sourceDBinfo instance)
  ++ closeOne (targetDB instance) "close target db %+v error %v" (targetDBInfo instance).

(** Close implements Unit interface. *)
Definition Close (c : Checker) : Checker * list event :=
  if closed c then (c, [])
  else
    (mkChecker true (instances c) (checkList c) (detail c),
     flat_map closeInstance (instances c)).

(** Pause implements Unit interface. *)
Definition Pause (c : Checker) : Checker * list event :=
  if closed c then (c, [EvLogWarn "[checker] try to pause, but already closed"])
  else (c, []).

(** Resume resumes the paused process. *)
Definition Resume (c : Checker) : Checker * list event :=
  if closed c then (c, [EvLogWarn "[checker] try to resume, but already closed"])
  else Process c.

(** Type implements Unit interface. *)
Definition Type_ (c : Checker) : pb.UnitType := pb.UnitType_Check.

(** Status implements Unit interface.  [res.Summary] is read through the
    pointer [res], which is nil until a [Process] has stored a result. *)
Definition Status (c : Checker) : result pb.CheckStatus :=
  match detail c with
  | None => Panic NilDereference
  | Some res =>
      let rawResult := fst (Marshal w res) in
      let s := check.Summary_ res in
      Ok (pb.mkCheckStatus (check.Passed s)
            (int32 (check.Total s)) (int32 (check.Failed s))
            (int32 (check.Successful s)) (int32 (check.Warning s))
            rawResult)
  end.

(** A sequence of method calls on one checker, and the events of all. *)
Definition seq2 (m1 m2 : Checker -> Checker * list event) (c : Checker)
  : Checker * list event :=
  let '(c1, e1) := m1 c in
  let '(c2, e2) := m2 c1 in
  (c2, e1 ++ e2).

Fixpoint repeatCall (m : Checker -> Checker * list event) (n : nat) (c : Checker)
  : Checker * list event :=
  match n with
  | O => (c, [])
  | S n' => seq2 m (repeatCall m n') c
  end.
End Unit.

End checker.

(* ===================================================================== *)
(** * Vocabulary of the statements *)
(* ===================================================================== *)

Module RegexpSpec.
Import Strings Regexp.







End RegexpSpec.

Module FilterSpec.
Import Strings Regexp filter.

(** A table matches some pattern pair of a list. *)
Definition matchesSomeTable (f : Filter) (l : list Table) (tb : Table) : Prop :=
  exists ptb, In ptb l /\
    matchString f (Schema ptb) (Schema tb) = true /\
    matchString f (Name ptb) (Name tb) = true.

(** A schema name matches some pattern of a list. *)
Definition matchesSomeDB (f : Filter) (l : list string) (a : string) : Prop :=
  exists b, In b l /\ matchString f b a = true.

(** The rules [r] with another ignore-list of schemas. *)
Definition withIgnoreDBs (r : Rules) (ig : list string) : Rules :=
  mkRules (DoTables r) (DoDBs r) (IgnoreTables r) ig.

(** The pattern strings of the rules, in the order [genRegexMap] visits
    them. *)
Definition tablePatterns (l : list Table) : list string :=
  flat_map (fun t => [Schema t; Name t]) l.

Definition patternsOf (r : Rules) : list string :=
  DoDBs r ++ tablePatterns (DoTables r) ++ IgnoreDBs r ++ tablePatterns (IgnoreTables r).

(** The regular expression source [addOneRegex] builds for a pattern. *)
Definition sourceOf (p : string) : string :=
  match p with
  | EmptyString => EmptyString
  | String c rest => regexSource c rest
  end.


(** An example filter: the rules of a small configuration, compiled. *)
Definition exampleRules : Rules :=
  mkRules [mkTable "shop" "~^orders_"] ["shop"; "~^tmp_"]
          [mkTable "shop" "orders_old"] ["mysql"].

Definition exampleFilter : Filter :=
  Eval vm_compute in
    match New (Some exampleRules) with
    | Ok f => f
    | Panic _ => mkFilter ∅ None
    end.

End FilterSpec.

Module SyncerSpec.
Import Regexp syncer.

(** One built-in pattern compiled on its own, under the flag (?i). *)
Definition compiledBuiltIn (p : string) : regex :=
  match Compile ("(?i)" +:+ p) with
  | Some r => r
  | None => OpNoMatch
  end.

End SyncerSpec.

Module CheckerSpec.
Import checker.

(** The database connections a checker owns, in the order [Close] visits
    them. *)
Definition ownedDBs (c : Checker) : list DB :=
  flat_map (fun i => match sourceDB i with Some db => [db] | None => [] end
                     ++ match targetDB i with Some db => [db] | None => [] end)
           (instances c).

(** The connections closed by a run of events. *)
Fixpoint closedDBs (evs : list event) : list DB :=
  match evs with
  | [] => []
  | EvCloseDB db :: evs' => db :: closedDBs evs'
  | _ :: evs' => closedDBs evs'
  end.

(** The results sent on the result channel by a run of events. *)
Fixpoint sent (evs : list event) : list pb.ProcessResult :=
  match evs with
  | [] => []
  | EvSend pr :: evs' => pr :: sent evs'
  | _ :: evs' => sent evs'
  end.

(** A world in which every check list fails one check of three, the
    context is done, and closing connection 7 fails. *)
Definition exampleWorld : world :=
  mkWorld (fun _ => check.mkResults [0; 1; 2] (check.mkSummary false 3 2 1 0))
          true
          (fun _ => ("{}"%string, None))
          (fun db => if Nat.eqb db 7 then Some 1 else None)
          (fun _ => "error"%string).

Definition exampleChecker : Checker :=
  mkChecker false
            [mkInstance 0 (Some 7) (Some "src0"%string) (Some 8) (Some "dst0"%string);
             mkInstance 1 (Some 9) (Some "src1"%string) None None]
            [0; 1; 2] None.

End CheckerSpec.


(* ===================================================================== *)
(** * Vocabulary of the further statements *)
(* ===================================================================== *)

Module PatternSpec.
Import Strings Regexp filter.

(** The characters the pattern syntax gives a meaning to. *)
Definition isMeta (c : ascii) : bool :=
  is_char c "\" || is_char c "(" || is_char c ")" || is_char c "|"
  || is_char c "." || is_char c "^" || is_char c "$" || is_char c "["
  || is_char c "{" || is_char c "*" || is_char c "+" || is_char c "?".

Fixpoint noMeta (s : string) : bool :=
  match s with
  | EmptyString => true
  | String c s' => negb (isMeta c) && noMeta s'
  end.

(** A plain name: not empty, no leading tilde, no character of the
    pattern syntax. *)
Definition plainName (p : string) : bool :=
  match p with
  | EmptyString => false
  | String c _ => negb (is_char c "~") && noMeta p
  end.

(** The text is ASCII: every byte is below 128, so that a byte is a
    character and the case of letters is the case of ASCII letters. *)
Fixpoint asciiOnly (s : string) : bool :=
  match s with
  | EmptyString => true
  | String c s' => (N_of_ascii c <? 128)%N && asciiOnly s'
  end.



(** The literals of a text, each matched with case folding. *)
Definition literals (s : string) : list regex :=
  map (OpLiteral true) (list_ascii_of_string s).

(** The expression that reads the text [s], in any case, up to the end of
    the input. *)
Definition wholeText (s : string) : regex := concat_of (literals s ++ [OpEndText]).

(** The expression that reads the text [s], in any case. *)
Definition someText (s : string) : regex := concat_of (literals s).

(** The expression every branch of which starts at the beginning of the
    input. *)
Fixpoint anchored (r : regex) : bool :=
  match r with
  | OpBeginText => true
  | OpConcat a _ => anchored a
  | OpAlternate a b => anchored a && anchored b
  | _ => false
  end.

(** Matching of plain names: equality up to the case of letters. *)
Definition sameName (p t : string) : bool :=
  String.eqb (Strings.ToLower p) (Strings.ToLower t).

(** The two gates and the filter, with plain names matched by [sameName]. *)
Definition plainSchemaGate (r : Rules) (tb : Table) : bool :=
  match DoDBs r, IgnoreDBs r with
  | _ :: _, _ => existsb (fun d => sameName d (Schema tb)) (DoDBs r)
  | [], _ :: _ => negb (existsb (fun d => sameName d (Schema tb)) (IgnoreDBs r))
  | [], [] => true
  end.

Definition sameTable (tb p : Table) : bool :=
  sameName (Schema p) (Schema tb) && sameName (Name p) (Name tb).

Definition plainTableGate (r : Rules) (tb : Table) : bool :=
  if Strings.is_empty (Name tb) then true
  else if existsb (sameTable tb) (DoTables r) then true
  else if existsb (sameTable tb) (IgnoreTables r) then false
  else match DoTables r with [] => true | _ :: _ => false end.

Definition plainApply (r : Rules) (stbs : list Table) : list Table :=
  List.filter (fun tb => plainSchemaGate r tb && plainTableGate r tb) stbs.

(** Rules and tables all of whose names are plain ASCII names. *)
Definition plainRules (r : Rules) : Prop :=
  forall p, In p (FilterSpec.patternsOf r) -> plainName p = true /\ asciiOnly p = true.

Definition asciiTables (stbs : list Table) : Prop :=
  forall tb, In tb stbs -> asciiOnly (Schema tb) = true /\ asciiOnly (Name tb) = true.

End PatternSpec.

Module FilterMoreSpec.
Import filter FilterSpec.

(** [r'] is [r] with further ignore rules. *)
Definition addsIgnores (r r' : Rules) : Prop :=
  DoTables r' = DoTables r /\ DoDBs r' = DoDBs r /\
  (forall t, In t (IgnoreTables r) -> In t (IgnoreTables r')) /\
  (forall d, In d (IgnoreDBs r) -> In d (IgnoreDBs r')).

End FilterMoreSpec.

Module CheckerMoreSpec.
Import checker CheckerSpec.

(** A call of one of the methods of the unit. *)
Inductive call := CallProcess | CallClose | CallPause | CallResume.

Definition runCall (w : world) (m : call) (c : Checker) : Checker * list event :=
  match m with
  | CallProcess => Process w c
  | CallClose => Close w c
  | CallPause => Pause c
  | CallResume => Resume w c
  end.

(** A run of calls, each in the world it meets, with the events of all. *)
Fixpoint runCalls (steps : list (world * call)) (c : Checker) : Checker * list event :=
  match steps with
  | [] => (c, [])
  | (w, m) :: rest =>
      let '(c1, e1) := runCall w m c in
      let '(c2, e2) := runCalls rest c1 in
      (c2, e1 ++ e2)
  end.

Definition isClose (m : call) : bool :=
  match m with CallClose => true | _ => false end.

End CheckerMoreSpec.

(* ===================================================================== *)
(** * Package checker: Init *)
(* ===================================================================== *)

Module checkerInit.
Import checker.

(** What [Init] reads of a sub task configuration, and the packages it
    calls.  A connection is a pointer that may be nil, an error a number
    ([None] is a nil error), a table router a handle.  [OpenDB] is given
    the number of the call, since two calls with the same configuration
    return two connections; it may return a connection together with an
    error.  [FetchTargetDoTables] returns a map from target name to
    tables: its entries are listed in the order in which the range
    statement of [Init] visits them, which Go leaves open, as is the
    order [rangeSharding] gives to the entries of the sharding map. *)
Record initWorld := mkInitWorld {
  instanceIDOf : SubTaskConfig -> string;
  BWListOf : SubTaskConfig -> option filter.Rules;
  NewTableRouter : SubTaskConfig -> nat * option nat;
  sourceInfoOf : SubTaskConfig -> DBConfig;
  targetInfoOf : SubTaskConfig -> DBConfig;
  OpenDB : nat -> DBConfig -> option DB * option nat;
  FetchTargetDoTables :
    option DB -> filter.Filter -> nat ->
    list (string * list filter.Table) * option nat;
  NewMySQLBinlogEnableChecker : option DB -> DBConfig -> CheckItem;
  NewMySQLBinlogFormatChecker : option DB -> DBConfig -> CheckItem;
  NewMySQLBinlogRowImageChecker : option DB -> DBConfig -> CheckItem;
  NewSourcePrivilegeChecker : option DB -> DBConfig -> CheckItem;
  NewTablesChecker : option DB -> DBConfig -> gmap string (list string) -> CheckItem;
  NewShardingTablesCheck :
    string -> gmap string (option DB) ->
    gmap string (gmap string (list string)) -> CheckItem;
  rangeSharding :
    gmap string (gmap string (gmap string (list string))) ->
    list (string * gmap string (gmap string (list string)))
}.

(** A Go [int], of 64 bits. *)
Definition wrapInt (x : Z) : Z := ((x + 2 ^ 63) mod 2 ^ 64 - 2 ^ 63)%Z.

(** [m[k] = append(m[k], v)] *)
Definition appendAt (m : gmap string (list string)) (k v : string)
  : gmap string (list string) :=
  <[k := default [] (m !! k) ++ [v]]> m.

(** The local maps of [Init]: [checkTables] of the instance at hand,
    [sharding] (target name, instance, schema, tables) and
    [shardingCounter]. *)
Record merged := mkMerged {
  checkTables : gmap string (list string);
  sharding : gmap string (gmap string (gmap string (list string)));
  shardingCounter : gmap string Z
}.

(** The body of the loop over the tables of one target name: the inner
    maps are made when they are missing, the table name is appended and the
    counter of the target name goes up by one. *)
Definition addTable (instanceID name : string) (a : merged) (table : filter.Table)
  : merged :=
  let byInstance := default ∅ (sharding a !! name) in
  let bySchema := default ∅ (byInstance !! instanceID) in
  mkMerged
    (appendAt (checkTables a) (filter.Schema table) (filter.Name table))
    (<[name := <[instanceID :=
         appendAt bySchema (filter.Schema table) (filter.Name table)]> byInstance]>
       (sharding a))
    (<[name := wrapInt (default 0%Z (shardingCounter a !! name) + 1)]>
       (shardingCounter a)).

(** The loop over the entries of the mapping of one instance. *)
Definition mergeMapping (instanceID : string)
           (mapping : list (string * list filter.Table)) (a : merged) : merged :=
  fold_left (fun a entry => fold_left (addTable instanceID (fst entry)) (snd entry) a)
            mapping a.

(** What [Init] did to the outside: the connections [OpenDB] returned and
    the mappings [FetchTargetDoTables] returned, in order. *)
Record initTrace := mkInitTrace {
  opened : list DB;
  fetched : list (list (string * list filter.Table))
}.

(** The state of [Init] between two instances: the instances visited so
    far as they now are, the two maps that outlive an instance, the map of
    source connections, the check list, and the trace. *)
Record initState := mkInitState {
  visited : list mysqlInstance;
  shardingOf : gmap string (gmap string (gmap string (list string)));
  counterOf : gmap string Z;
  dbs : gmap string (option DB);
  checks : list CheckItem;
  trace : initTrace
}.

Definition handles (db : option DB) : list DB :=
  match db with Some d => [d] | None => [] end.

(** The state when the loop is left with an error at the instance [i],
    which had opened the connections [dbsOpened]. *)
Definition leftAt (st : initState) (i : mysqlInstance) (dbsOpened : list DB)
  : initState :=
  mkInitState (visited st ++ [i]) (shardingOf st) (counterOf st) (dbs st) (checks st)
              (mkInitTrace (opened (trace st) ++ dbsOpened) (fetched (trace st))).

(** The body of the loop over the instances, for the instance number [n].
    The outcome is the new state and the error returned, if any. *)
Definition initInstance (iw : initWorld) (n : nat) (st : initState)
           (instance : mysqlInstance) : result (initState * option nat) :=
  let c := cfg instance in
  let instanceID := instanceIDOf iw c in
  bw <-! filter.New (BWListOf iw c) ;
  match NewTableRouter iw c with
  | (_, Some err) => Ok (leftAt st instance [], Some err)
  | (r, None) =>
    let sinfo := sourceInfoOf iw c in
    match OpenDB iw (2 * n) sinfo with
    | (sdb, Some err) =>
        Ok (leftAt st
              (mkInstance c sdb (Some sinfo) (targetDB instance) (targetDBInfo instance))
              (handles sdb), Some err)
    | (sdb, None) =>
      let tinfo := targetInfoOf iw c in
      match OpenDB iw (2 * n + 1) tinfo with
      | (tdb, Some err) =>
          Ok (leftAt st (mkInstance c sdb (Some sinfo) tdb (Some tinfo))
                (handles sdb ++ handles tdb), Some err)
      | (tdb, None) =>
        let instance' := mkInstance c sdb (Some sinfo) tdb (Some tinfo) in
        match FetchTargetDoTables iw sdb bw r with
        | (_, Some err) =>
            Ok (leftAt st instance' (handles sdb ++ handles tdb), Some err)
        | (mapping, None) =>
          let m := mergeMapping instanceID mapping
                     (mkMerged ∅ (shardingOf st) (counterOf st)) in
          Ok (mkInitState
                (visited st ++ [instance'])
                (sharding m) (shardingCounter m)
                (<[instanceID := sdb]> (dbs st))
                (checks st ++
                 [NewMySQLBinlogEnableChecker iw sdb sinfo;
                  NewMySQLBinlogFormatChecker iw sdb sinfo;
                  NewMySQLBinlogRowImageChecker iw sdb sinfo;
                  NewSourcePrivilegeChecker iw sdb sinfo;
                  NewTablesChecker iw sdb sinfo (checkTables m)])
                (mkInitTrace (opened (trace st) ++ handles sdb ++ handles tdb)
                             (fetched (trace st) ++ [mapping])),
              None)
        end
      end
    end
  end.

(** The loop over the instances: it ends at the first error, and the
    instances not yet visited stay as they are. *)
Fixpoint initLoop (iw : initWorld) (n : nat) (rest : list mysqlInstance)
         (st : initState) : result (initState * list mysqlInstance * option nat) :=
  match rest with
  | [] => Ok (st, [], None)
  | instance :: rest' =>
      r <-! initInstance iw n st instance ;
      match r with
      | (st', Some err) => Ok (st', rest', Some err)
      | (st', None) => initLoop iw (S n) rest' st'
      end
  end.

(** The body of the last loop. *)
Definition registerOne (iw : initWorld) (st : initState) (l : list CheckItem)
           (entry : string * gmap string (gmap string (list string)))
  : list CheckItem :=
  if (default 0%Z (counterOf st !! fst entry) <=? 1)%Z then l
  else l ++ [NewShardingTablesCheck iw (fst entry) (dbs st) (snd entry)].

(** The last loop: a sharding check for each target name whose counter
    is above one. *)
Definition registerSharding (iw : initWorld) (st : initState) : list CheckItem :=
  fold_left (registerOne iw st) (rangeSharding iw (shardingOf st)) (checks st).

(** Init implements Unit interface.  Beside the checker as [Init] leaves
    it and the error it returns, the outcome has the trace. *)
Definition Init (iw : initWorld) (c : Checker)
  : result (Checker * option nat * initTrace) :=
  r <-! initLoop iw 0 (instances c)
          (mkInitState [] ∅ ∅ ∅ (checkList c) (mkInitTrace [] [])) ;
  match r with
  | (st, rest, Some err) =>
      Ok (mkChecker (closed c) (visited st ++ rest) (checks st) (detail c),
          Some err, trace st)
  | (st, rest, None) =>
      Ok (mkChecker (closed c) (visited st ++ rest) (registerSharding iw st) (detail c),
          None, trace st)
  end.

End checkerInit.

Module InitSpec.
Import checker checkerInit.

(** The number of tables that a mapping routes to the target [name]. *)
Definition routedIn (name : string) (mapping : list (string * list filter.Table)) : Z :=
  fold_right (fun entry n =>
                (if String.eqb (fst entry) name
                 then Z.of_nat (length (snd entry)) else 0) + n)%Z
             0%Z mapping.

(** The number of tables that the mappings of all instances route to the
    target [name]. *)
Definition routed (name : string) (ms : list (list (string * list filter.Table))) : Z :=
  fold_right (fun m n => routedIn name m + n)%Z 0%Z ms.

(** The connections that instances hold. *)
Definition ownedBy (l : list mysqlInstance) : list DB :=
  flat_map (fun i => handles (sourceDB i) ++ handles (targetDB i)) l.

(** The instances hold no connection, as those of [NewChecker]. *)
Definition holdsNone (l : list mysqlInstance) : Prop :=
  forall i, In i l -> sourceDB i = None /\ targetDB i = None.

(** The sharding map and the counter keep track of the count [f] of
    tables per target name. *)
Definition tracks (sh : gmap string (gmap string (gmap string (list string))))
           (cnt : gmap string Z) (f : string -> Z) : Prop :=
  forall name,
    (0 <= f name)%Z /\ default 0%Z (cnt !! name) = f name /\
    (is_Some (sh !! name) <-> (0 < f name)%Z).

(** The check that the last loop of [Init] makes for an entry of the
    sharding map. *)
Definition shardingCheck (iw : initWorld) (dbsF : gmap string (option DB))
           (entry : string * gmap string (gmap string (list string))) : CheckItem :=
  NewShardingTablesCheck iw (fst entry) dbsF (snd entry).

(** Three instances that each route one table to the target orders, the
    second one also a table to the target users. *)
Definition exampleInitWorld : initWorld :=
  mkInitWorld
    (fun c => match c with 0 => "a:3306" | 1 => "b:3306" | _ => "c:3306" end%string)
    (fun _ => None)
    (fun c => (c, None))
    (fun c => match c with 0 => "src-a" | 1 => "src-b" | _ => "src-c" end%string)
    (fun _ => "dst"%string)
    (fun n _ => (Some (10 + n), None))
    (fun db _ _ =>
       (match db with
        | Some 12 => [("orders", [filter.mkTable "shop_b" "orders"]);
                      ("users", [filter.mkTable "shop_b" "users"])]
        | Some 10 => [("orders", [filter.mkTable "shop_a" "orders"])]
        | _ => [("orders", [filter.mkTable "shop_c" "orders"])]
        end%string, None))
    (fun _ _ => 1) (fun _ _ => 2) (fun _ _ => 3) (fun _ _ => 4) (fun _ _ _ => 5)
    (fun name _ _ => 100 + String.length name)
    map_to_list.

(** The range statements visit each entry of a map once. *)
Definition rangesEachOnce (iw : initWorld) : Prop :=
  forall m, rangeSharding iw m ≡ₚ map_to_list m.

End InitSpec.

(* ===================================================================== *)
(** * Package utils of the tests (tests/utils/dmctl.go) *)
(* ===================================================================== *)

Module dmctl.

(** The message [CommonWorkerResponse], one for each worker of a response
    of the master. *)
Record CommonWorkerResponse := mkWorkerResponse {
  Result : bool;
  Worker : string;
  Msg : string
}.

(** Go [error] values: an error of a collaborator, [errors.Trace] of an
    error and [errors.Errorf] with its format and arguments. *)
Inductive error :=
| External (code : nat)
| Trace (err : error)
| Errorf (format : string) (args : list string).

(** [ioutil.ReadFile] and the [StartTask] call of the master client, with
    the task and the workers of the request. *)
Record client := mkClient {
  ReadFile : string -> string * option error;
  StartTaskRPC : string -> list string -> list CommonWorkerResponse * option error
}.

(** The loop over the workers of the response. *)
Fixpoint checkWorkers (content : string) (wps : list CommonWorkerResponse)
  : option error :=
  match wps with
  | [] => None
  | wp :: rest =>
      if negb (Result wp)
      then Some (Errorf "fail to start task %v: %s" [content; Msg wp])
      else checkWorkers content rest
  end.

Definition StartTask (cli : client) (configFile : string) (workers : list string)
  : option error :=
  match ReadFile cli configFile with
  | (_, Some err) => Some (Trace err)
  | (content, None) =>
      match StartTaskRPC cli content workers with
      | (_, Some err) => Some (Trace err)
      | (resp, None) => checkWorkers content resp
      end
  end.

End dmctl.

(* ===================================================================== *)
(** * Properties of the regular expressions *)
(* ===================================================================== *)

Module RegexpFacts.
Import Strings Regexp RegexpSpec.

Ltac each_char c := destruct c as [[] [] [] [] [] [] [] []].

Lemma lower_char_idem c : lower_char (lower_char c) = lower_char c.
Proof. each_char c; reflexivity. Qed.

Lemma ToLower_idem s : ToLower (ToLower s) = ToLower s.
Proof. induction s as [|c s IH]; simpl; [| rewrite lower_char_idem, IH]; reflexivity. Qed.



Section Fold.
Variables c c' : ascii.
Hypothesis Hcc : lower_char c = lower_char c'.



End Fold.








(** ** Case folding survives parsing *)










(** ** Alternation *)

Lemma match_prefix_NoMatch s : forall bot, match_prefix bot OpNoMatch s = false.
Proof. induction s as [|c s IH]; intros bot; simpl; [reflexivity | apply IH]. Qed.

Lemma match_prefix_Alternate s : forall bot a b,
  match_prefix bot (OpAlternate a b) s = match_prefix bot a s || match_prefix bot b s.
Proof.
  induction s as [|c s IH]; intros bot a b; simpl.
  - rewrite !orb_false_r. reflexivity.
  - assert (Halt : forall x y,
              match_prefix false (alt x y) s
              = match_prefix false x s || match_prefix false y s).
    { intros x y.
      destruct x; try (simpl alt; rewrite match_prefix_NoMatch; reflexivity);
        destruct y; simpl alt;
        rewrite ?match_prefix_NoMatch, ?orb_false_r; try reflexivity; apply IH. }
    rewrite Halt.
    destruct (nullable bot false a), (nullable bot false b),
             (match_prefix false (deriv bot c a) s),
             (match_prefix false (deriv bot c b) s); reflexivity.
Qed.

Lemma search_NoMatch s : forall bot, search bot OpNoMatch s = false.
Proof.
  induction s as [|c s IH]; intros bot; cbn [search]; rewrite match_prefix_NoMatch;
    [reflexivity | apply IH].
Qed.

Lemma search_Alternate s : forall bot a b,
  search bot (OpAlternate a b) s = search bot a s || search bot b s.
Proof.
  induction s as [|c s IH]; intros bot a b; cbn [search];
    rewrite match_prefix_Alternate.
  - rewrite !orb_false_r. reflexivity.
  - rewrite IH.
    destruct (match_prefix bot a (String c s)), (match_prefix bot b (String c s)),
             (search false a s), (search false b s); reflexivity.
Qed.

(** An alternation finds a match where one of its branches does. *)
Lemma search_alternate_of (l : list regex) bot s :
  search bot (alternate_of l) s = existsb (fun r => search bot r s) l.
Proof.
  induction l as [|x l IH]; [apply search_NoMatch|].
  destruct l as [|y l'].
  - simpl. rewrite orb_false_r. reflexivity.
  - change (alternate_of (x :: y :: l')) with (OpAlternate x (alternate_of (y :: l'))).
    rewrite search_Alternate, IH. reflexivity.
Qed.

End RegexpFacts.

(* ===================================================================== *)
(** * Properties of the table filter *)
(* ===================================================================== *)

Module FilterFacts.
Import Strings Regexp filter FilterSpec.

Lemma matchDB_true f l a : matchDB f l a = true <-> matchesSomeDB f l a.
Proof.
  unfold matchesSomeDB. induction l as [|b l IH]; simpl.
  - split; [discriminate | intros (b & [] & _)].
  - destruct (matchString f b a) eqn:E.
    + split; [intros _; exists b; auto | reflexivity].
    + rewrite IH. split.
      * intros (b' & Hin & Hm). exists b'. auto.
      * intros (b' & [-> | Hin] & Hm); [congruence | exists b'; auto].
Qed.

Lemma matchTable_true f l tb : matchTable f l tb = true <-> matchesSomeTable f l tb.
Proof.
  unfold matchesSomeTable. induction l as [|p l IH]; simpl.
  - split; [discriminate | intros (b & [] & _)].
  - destruct (matchString f (Schema p) (Schema tb) && matchString f (Name p) (Name tb)) eqn:E.
    + split; [|reflexivity]. intros _. apply andb_true_iff in E. exists p. tauto.
    + rewrite IH. split.
      * intros (b' & Hin & Hm). exists b'. auto.
      * intros (b' & [-> | Hin] & Hm1 & Hm2).
        -- rewrite Hm1, Hm2 in E. discriminate.
        -- exists b'. auto.
Qed.

Lemma matchDB_false f l a : matchDB f l a = false <-> ~ matchesSomeDB f l a.
Proof. rewrite <- matchDB_true. destruct (matchDB f l a); split; congruence. Qed.

Lemma matchTable_false f l tb : matchTable f l tb = false <-> ~ matchesSomeTable f l tb.
Proof. rewrite <- matchTable_true. destruct (matchTable f l tb); split; congruence. Qed.

Lemma nonempty_ltb {A} (l : list A) : (0 <? length l)%nat = true <-> l <> [].
Proof. destruct l; cbn; split; try discriminate; try congruence; reflexivity. Qed.

Lemma empty_eqb {A} (l : list A) : (length l =? 0)%nat = true <-> l = [].
Proof. destruct l; cbn; split; try discriminate; reflexivity. Qed.

Lemma name_empty_eqb (s : string) : (String.length s =? 0)%nat = true <-> s = "".
Proof. destruct s; cbn; split; try discriminate; reflexivity. Qed.

Lemma In_applyLoop f r tb stbs :
  In tb (applyLoop f r stbs) <->
  In tb stbs /\ filterOnSchemas f r tb = true /\ filterOnTables f r tb = true.
Proof.
  induction stbs as [|x l IH]; simpl; [tauto|].
  destruct (filterOnSchemas f r x && filterOnTables f r x) eqn:E; simpl; rewrite IH.
  - apply andb_true_iff in E. split.
    + intros [-> | H]; tauto.
    + tauto.
  - split; [tauto|]. intros ([-> | H] & H1 & H2); [|tauto].
    rewrite H1, H2 in E. discriminate.
Qed.

Lemma applyLoop_idem f r stbs :
  applyLoop f r (applyLoop f r stbs) = applyLoop f r stbs.
Proof.
  induction stbs as [|x l IH]; simpl; [reflexivity|].
  destruct (filterOnSchemas f r x && filterOnTables f r x) eqn:E; simpl.
  - rewrite E, IH. reflexivity.
  - exact IH.
Qed.

(** C1. The table gate: a table with a non-empty name that matches a pair
    of a non-empty do-list is accepted; otherwise one that matches a pair
    of a non-empty ignore-list is rejected; otherwise it is accepted if and
    only if the do-list is empty.  A table with an empty name is always
    accepted. *)
Theorem filterOnTables_gate (f : Filter) (r : Rules) (tb : Table) :
  (Name tb <> "" ->
     (DoTables r <> [] /\ matchesSomeTable f (DoTables r) tb ->
        filterOnTables f r tb = true) /\
     (~ (DoTables r <> [] /\ matchesSomeTable f (DoTables r) tb) ->
        (IgnoreTables r <> [] /\ matchesSomeTable f (IgnoreTables r) tb ->
           filterOnTables f r tb = false) /\
        (~ (IgnoreTables r <> [] /\ matchesSomeTable f (IgnoreTables r) tb) ->
           (filterOnTables f r tb = true <-> DoTables r = [])))) /\
  (Name tb = "" -> filterOnTables f r tb = true).
Proof.
  unfold filterOnTables, findMatchedDoTables, findMatchedIgnoreTables.
  split.
  - intros Hname.
    destruct (String.length (Name tb) =? 0)%nat eqn:En.
    { apply name_empty_eqb in En. contradiction. }
    split; [| intros Hdo; split].
    + intros [Hne Hm]. apply nonempty_ltb in Hne. apply matchTable_true in Hm.
      rewrite Hne, Hm. reflexivity.
    + intros [Hne Hm]. apply nonempty_ltb in Hne. apply matchTable_true in Hm.
      destruct ((0 <? length (DoTables r))%nat && matchTable f (DoTables r) tb) eqn:Ed.
      * exfalso. apply Hdo. apply andb_true_iff in Ed as [E1 E2].
        split; [apply nonempty_ltb | apply matchTable_true]; assumption.
      * rewrite Hne, Hm. reflexivity.
    + intros Hig.
      destruct ((0 <? length (DoTables r))%nat && matchTable f (DoTables r) tb) eqn:Ed.
      { exfalso. apply Hdo. apply andb_true_iff in Ed as [E1 E2].
        split; [apply nonempty_ltb | apply matchTable_true]; assumption. }
      destruct ((0 <? length (IgnoreTables r))%nat
                && matchTable f (IgnoreTables r) tb) eqn:Ei.
      { exfalso. apply Hig. apply andb_true_iff in Ei as [E1 E2].
        split; [apply nonempty_ltb | apply matchTable_true]; assumption. }
      apply empty_eqb.
  - intros Hname. rewrite Hname. reflexivity.
Qed.

Lemma filterOnTables_gate_witness :
  filterOnTables exampleFilter exampleRules (mkTable "shop" "") = true /\
  filterOnTables exampleFilter exampleRules (mkTable "Shop" "ORDERS_2019") = true.
Proof.
  split.
  - apply (proj2 (filterOnTables_gate exampleFilter exampleRules (mkTable "shop" ""))).
    reflexivity.
  - apply (proj1 (proj1 (filterOnTables_gate exampleFilter exampleRules
                           (mkTable "Shop" "ORDERS_2019")) ltac:(discriminate))).
    split; [discriminate|].
    exists (mkTable "shop" "~^orders_"). split; [left; reflexivity|].
    split; vm_compute; reflexivity.
Defined.


(** C2. The schema gate: with a non-empty list of do-schemas a table passes
    if and only if its schema matches one of them, whatever the list of
    ignored schemas is; with an empty one a table is rejected if and only
    if its schema matches an ignored schema.  Hence a table whose schema
    matches no pattern of a non-empty list of do-schemas is never in the
    result of [ApplyOn], whatever the table rules are. *)
Theorem filterOnSchemas_gate (f : Filter) (r : Rules) (tb : Table) :
  (DoDBs r <> [] ->
     (filterOnSchemas f r tb = true <-> matchesSomeDB f (DoDBs r) (Schema tb)) /\
     (forall ig, filterOnSchemas f (withIgnoreDBs r ig) tb = filterOnSchemas f r tb)) /\
  (DoDBs r = [] ->
     (filterOnSchemas f r tb = false <-> matchesSomeDB f (IgnoreDBs r) (Schema tb))) /\
  (rules f = Some r -> DoDBs r <> [] ->
     ~ matchesSomeDB f (DoDBs r) (Schema tb) ->
     forall stbs, ~ In tb (ApplyOn (Some f) stbs)).
Proof.
  assert (Hdo : DoDBs r <> [] -> filterOnSchemas f r tb = matchDB f (DoDBs r) (Schema tb)).
  { intros Hne. unfold filterOnSchemas, findMatchedDoDBs.
    apply nonempty_ltb in Hne. rewrite Hne.
    destruct (matchDB f (DoDBs r) (Schema tb)); reflexivity. }
  split; [| split].
  - intros Hne. split.
    + rewrite (Hdo Hne). apply matchDB_true.
    + intros ig. unfold filterOnSchemas, findMatchedDoDBs. simpl.
      apply nonempty_ltb in Hne. rewrite Hne. reflexivity.
  - intros He. unfold filterOnSchemas, findMatchedIgnoreDBs. rewrite He.
    change (0 <? length (@nil string))%nat with false. cbv iota.
    rewrite <- matchDB_true.
    destruct (0 <? length (IgnoreDBs r))%nat eqn:Ei.
    + destruct (matchDB f (IgnoreDBs r) (Schema tb)); split; congruence.
    + destruct (IgnoreDBs r); [| discriminate]. split; discriminate.
  - intros Hr Hne Hno stbs Hin. unfold ApplyOn in Hin. rewrite Hr in Hin.
    apply In_applyLoop in Hin as (_ & Hs & _).
    rewrite (Hdo Hne) in Hs. apply matchDB_true in Hs. contradiction.
Qed.

Lemma filterOnSchemas_gate_witness :
  filterOnSchemas exampleFilter exampleRules (mkTable "TMP_load" "t") = true /\
  ~ In (mkTable "mysql" "user")
       (ApplyOn (Some exampleFilter) [mkTable "mysql" "user"; mkTable "shop" "orders_1"]).
Proof.
  assert (Hne : DoDBs exampleRules <> []) by discriminate.
  split.
  - apply (proj2 (proj1 (proj1 (filterOnSchemas_gate exampleFilter exampleRules
                                  (mkTable "TMP_load" "t")) Hne))).
    exists "~^tmp_"%string. split; [right; left; reflexivity | vm_compute; reflexivity].
  - apply (proj2 (proj2 (filterOnSchemas_gate exampleFilter exampleRules
                           (mkTable "mysql" "user"))) eq_refl Hne).
    apply matchDB_false. vm_compute. reflexivity.
Defined.

(** C7. [ApplyOn] is idempotent for every filter, nil or not, and a nil
    filter or a filter with nil rules returns the tables it was given. *)
Theorem ApplyOn_idempotent (f : option Filter) (stbs : list Table) :
  ApplyOn f (ApplyOn f stbs) = ApplyOn f stbs /\
  ApplyOn None stbs = stbs /\
  (forall m, ApplyOn (Some (mkFilter m None)) stbs = stbs).
Proof.
  split; [| split; [reflexivity | intros m; reflexivity]].
  destruct f as [f|]; [| reflexivity]. unfold ApplyOn.
  destruct (rules f) as [r|]; [| reflexivity].
  apply applyLoop_idem.
Qed.


(** ** What [New] installs *)

Lemma forRange_app {A S} (body : S -> A -> result S) (l1 l2 : list A) (s : S) :
  forRange body (l1 ++ l2) s = rbind (forRange body l1 s) (forRange body l2).
Proof.
  revert s. induction l1 as [|x l1 IH]; intros s; simpl; [reflexivity|].
  destruct (body s x) as [s'|k]; simpl; [apply IH | reflexivity].
Qed.

Lemma forRange_tables (l : list Table) (f : Filter) :
  forRange addTableRegex l f = forRange addOneRegex (tablePatterns l) f.
Proof.
  revert f. induction l as [|t l IH]; intros f; simpl; [reflexivity|].
  unfold addTableRegex at 1.
  destruct (addOneRegex f (Schema t)) as [f1|k]; simpl; [| reflexivity].
  destruct (addOneRegex f1 (Name t)) as [f2|k]; simpl; [apply IH | reflexivity].
Qed.

Lemma New_forRange (r : Rules) :
  New (Some r) = forRange addOneRegex (patternsOf r) (mkFilter ∅ (Some r)).
Proof.
  unfold New, genRegexMap, patternsOf. simpl rules.
  rewrite forRange_app.
  destruct (forRange addOneRegex (DoDBs r) _) as [f1|k]; simpl; [| reflexivity].
  rewrite forRange_app, forRange_tables.
  destruct (forRange addOneRegex (tablePatterns (DoTables r)) f1) as [f2|k];
    simpl; [| reflexivity].
  rewrite forRange_app.
  destruct (forRange addOneRegex (IgnoreDBs r) f2) as [f3|k]; simpl; [| reflexivity].
  apply forRange_tables.
Qed.

Lemma addOneRegex_Ok (f : Filter) (p : string) (f' : Filter) :
  addOneRegex f p = Ok f' ->
  rules f' = rules f /\
  ((patternMap f !! p <> None /\ f' = f) \/
   (patternMap f !! p = None /\ p <> "" /\
    exists re, Compile (sourceOf p) = Some re /\
               patternMap f' = <[p := re]> (patternMap f))).
Proof.
  unfold addOneRegex. destruct (patternMap f !! p) as [re0|] eqn:El.
  - intros [= <-]. split; [reflexivity|]. left. split; [discriminate | reflexivity].
  - destruct p as [|c rest]; [discriminate|]. unfold MustCompile. simpl sourceOf.
    destruct (Compile (regexSource c rest)) as [re|]; simpl; [| discriminate].
    intros [= <-]. split; [reflexivity|]. right.
    split; [reflexivity|]. split; [discriminate|]. exists re. split; reflexivity.
Qed.

Lemma forRange_addOneRegex_Ok (l : list string) : forall (f f' : Filter),
  forRange addOneRegex l f = Ok f' ->
  rules f' = rules f /\
  forall q,
    (patternMap f !! q <> None -> patternMap f' !! q = patternMap f !! q) /\
    (patternMap f !! q = None -> In q l ->
       q <> "" /\ patternMap f' !! q = Compile (sourceOf q) /\
       patternMap f' !! q <> None) /\
    (patternMap f !! q = None -> ~ In q l -> patternMap f' !! q = None).
Proof.
  induction l as [|p l IH]; intros f f' Hrun; simpl in Hrun.
  - injection Hrun as <-. split; [reflexivity|]. intros q.
    split; [reflexivity|]. split; [intros _ [] | auto].
  - destruct (addOneRegex f p) as [f1|k] eqn:E1; simpl in Hrun; [| discriminate].
    apply addOneRegex_Ok in E1 as (Hr1 & Hcase).
    destruct (IH f1 f' Hrun) as (Hr & Hq).
    split; [congruence|]. intros q. destruct (Hq q) as (H1 & H2 & H3).
    destruct Hcase as [(Hsome & ->) | (Hnone & Hne & re & Hre & Hins)].
    + split; [exact H1|]. split.
      * intros Hn [<- | Hin]; [contradiction | auto].
      * intros Hn Hnin. apply H3; [exact Hn|]. intros Hin. apply Hnin. right. exact Hin.
    + destruct (decide (p = q)) as [<- | Hpq].
      * assert (Hl1 : patternMap f1 !! p = Some re)
          by (rewrite Hins; apply lookup_insert_eq).
        assert (Hf' : patternMap f' !! p = Some re)
          by (rewrite <- Hl1; apply H1; rewrite Hl1; discriminate).
        split; [intros Hc; contradiction|]. split.
        -- intros _ _. split; [exact Hne|]. rewrite Hf', Hre. split; [reflexivity | discriminate].
        -- intros _ Hnin. exfalso. apply Hnin. left. reflexivity.
      * assert (Hl1 : patternMap f1 !! q = patternMap f !! q)
          by (rewrite Hins; apply lookup_insert_ne; exact Hpq).
        rewrite Hl1 in H1, H2, H3. split; [exact H1|]. split.
        -- intros Hn [-> | Hin]; [contradiction | auto].
        -- intros Hn Hnin. apply H3; [exact Hn|]. intros Hin. apply Hnin. right. exact Hin.
Qed.

Lemma forRange_addOneRegex_total (l : list string) : forall (f : Filter),
  (forall p, In p l -> p <> "" /\ Compile (sourceOf p) <> None) ->
  exists f', forRange addOneRegex l f = Ok f'.
Proof.
  induction l as [|p l IH]; intros f Hall; simpl; [eexists; reflexivity|].
  assert (exists f1, addOneRegex f p = Ok f1) as (f1 & ->).
  { unfold addOneRegex. destruct (patternMap f !! p); [eexists; reflexivity|].
    destruct (Hall p (or_introl eq_refl)) as (Hne & Hc).
    destruct p as [|c rest]; [contradiction|]. simpl sourceOf in Hc.
    unfold MustCompile. destruct (Compile (regexSource c rest)); [| contradiction].
    simpl. eexists. reflexivity. }
  simpl. apply IH. intros q Hq. apply Hall. right. exact Hq.
Qed.

Lemma forRange_addOneRegex_empty (l : list string) : forall (f : Filter),
  patternMap f !! "" = None -> In "" l ->
  (exists k, forRange addOneRegex l f = Panic k) /\
  ((forall p, In p l -> p <> "" -> Compile (sourceOf p) <> None) ->
   forRange addOneRegex l f = Panic IndexOutOfRange).
Proof.
  induction l as [|p l IH]; intros f Hf Hin; [destruct Hin|]. simpl.
  destruct p as [|c rest].
  - unfold addOneRegex. rewrite Hf. simpl. split; [eexists|]; reflexivity.
  - destruct Hin as [Heq | Hin]; [discriminate|].
    unfold addOneRegex. destruct (patternMap f !! String c rest) eqn:El.
    + simpl. destruct (IH f Hf Hin) as (H1 & H2). split; [exact H1|].
      intros Hall. apply H2. intros q Hq. apply Hall. right. exact Hq.
    + unfold MustCompile. destruct (Compile (regexSource c rest)) as [re|] eqn:Ec; simpl.
      * assert (Hf1 : patternMap (mkFilter (<[String c rest := re]> (patternMap f))
                                           (rules f)) !! "" = None).
        { simpl. rewrite lookup_insert_ne; [exact Hf | discriminate]. }
        destruct (IH _ Hf1 Hin) as (H1 & H2). split; [exact H1|].
        intros Hall. apply H2. intros q Hq. apply Hall. right. exact Hq.
      * split; [eexists; reflexivity|]. intros Hall. exfalso.
        apply (Hall (String c rest) (or_introl eq_refl)); [discriminate | exact Ec].
Qed.

(** The filter [New] returns holds, for each pattern of its rules, the
    matcher compiled from the source of that pattern, and nothing else. *)
Lemma New_Ok (r : Rules) (f : Filter) :
  New (Some r) = Ok f ->
  rules f = Some r /\
  (forall p, In p (patternsOf r) ->
     p <> "" /\ exists re, patternMap f !! p = Some re /\ Compile (sourceOf p) = Some re) /\
  (forall p, ~ In p (patternsOf r) -> patternMap f !! p = None).
Proof.
  rewrite New_forRange. intros Hrun.
  apply forRange_addOneRegex_Ok in Hrun as (Hr & Hq).
  split; [exact Hr|]. split.
  - intros p Hin. destruct (Hq p) as (_ & H2 & _).
    destruct (H2 (lookup_empty p) Hin) as (Hne & Heq & Hsome).
    split; [exact Hne|]. destruct (patternMap f !! p) as [re|]; [| contradiction].
    exists re. split; [reflexivity | symmetry; exact Heq].
  - intros p Hnin. destruct (Hq p) as (_ & _ & H3). apply H3; [apply lookup_empty | exact Hnin].
Qed.

Lemma New_Ok_at (r : Rules) (f : Filter) (p : string) :
  New (Some r) = Ok f -> In p (patternsOf r) ->
  p <> "" /\ exists re, patternMap f !! p = Some re /\ Compile (sourceOf p) = Some re.
Proof. intros Hnew Hin. exact (proj1 (proj2 (New_Ok r f Hnew)) p Hin). Qed.









End FilterFacts.

(* ===================================================================== *)
(** * Properties of the binlog event filter *)
(* ===================================================================== *)

Module SyncerFacts.
Import Strings Regexp filter syncer SyncerSpec.

(** [init] compiles the alternation of the built-in patterns without
    panic. *)
Lemma builtInSkipDDLPatterns_compiled :
  MustCompile builtInSkipDDLSource = Ok builtInSkipDDLPatterns.
Proof. vm_compute. reflexivity. Qed.

Lemma skipQuery_found IsSystemSchema s tables sql :
  FindStringIndex_found builtInSkipDDLPatterns sql = true ->
  skipQuery IsSystemSchema s tables sql = (true, None).
Proof. intros H. unfold skipQuery. rewrite H. reflexivity. Qed.

(** The compiled alternation is the alternation of the patterns, each
    compiled on its own under the flag (?i). *)
Lemma builtInSkipDDLPatterns_branches :
  builtInSkipDDLPatterns = alternate_of (map compiledBuiltIn builtInSkipDDLs).
Proof. vm_compute. reflexivity. Qed.

Lemma builtIn_pattern_found (p : string) (re : regex) (sql : string) :
  In p builtInSkipDDLs -> Compile ("(?i)" +:+ p) = Some re ->
  MatchString re sql = true ->
  FindStringIndex_found builtInSkipDDLPatterns sql = true.
Proof.
  intros Hin Hc Hm. unfold FindStringIndex_found.
  rewrite builtInSkipDDLPatterns_branches, RegexpFacts.search_alternate_of.
  apply existsb_exists. exists (compiledBuiltIn p). split.
  - apply in_map. exact Hin.
  - unfold compiledBuiltIn. rewrite Hc. exact Hm.
Qed.

(** C3. A statement in which the built-in skip patterns find a match, or
    one of them alone does, is skipped without error, whatever the system
    schemas, the syncer (its table filter and its binlog filter) and the
    tables are; so are SAVEPOINT sp1, FLUSH LOGS, OPTIMIZE TABLE t,
    GRANT ALL ON *.* and every statement that starts with
    CREATE TRIGGER tg. *)
Theorem skipQuery_builtin (IsSystemSchema : string -> bool) (s : Syncer)
        (tables : list Table) :
  (forall sql, FindStringIndex_found builtInSkipDDLPatterns sql = true ->
               skipQuery IsSystemSchema s tables sql = (true, None)) /\
  (forall p re sql,
     In p builtInSkipDDLs -> Compile ("(?i)" +:+ p) = Some re ->
     MatchString re sql = true ->
     skipQuery IsSystemSchema s tables sql = (true, None)) /\
  skipQuery IsSystemSchema s tables "SAVEPOINT sp1" = (true, None) /\
  skipQuery IsSystemSchema s tables "FLUSH LOGS" = (true, None) /\
  skipQuery IsSystemSchema s tables "OPTIMIZE TABLE t" = (true, None) /\
  (forall rest, skipQuery IsSystemSchema s tables ("CREATE TRIGGER tg " +:+ rest)
                = (true, None)) /\
  skipQuery IsSystemSchema s tables "GRANT ALL ON *.*" = (true, None).
Proof.
  split; [intros sql; apply skipQuery_found |].
  split.
  { intros p re sql Hin Hc Hm. apply skipQuery_found.
    exact (builtIn_pattern_found p re sql Hin Hc Hm). }
  repeat split; intros; apply skipQuery_found; vm_compute; reflexivity.
Qed.

Lemma skipQuery_builtin_witness :
  skipQuery (fun _ => false) (mkSyncer None None) [mkTable "shop" "t"]
            "drop temporary table if exists t" = (true, None) /\
  skipQuery (fun _ => true) (mkSyncer (Some FilterSpec.exampleFilter) None) []
            "Revoke all on shop.* from app" = (true, None).
Proof.
  split.
  - apply (proj1 (skipQuery_builtin (fun _ => false) (mkSyncer None None)
                    [mkTable "shop" "t"])).
    vm_compute. reflexivity.
  - apply (proj1 (proj2 (skipQuery_builtin (fun _ => true)
                           (mkSyncer (Some FilterSpec.exampleFilter) None) []))
             "^REVOKE"%string
             (OpConcat OpBeginText
                (OpConcat (OpLiteral true "R")
                   (OpConcat (OpLiteral true "E")
                      (OpConcat (OpLiteral true "V")
                         (OpConcat (OpLiteral true "O")
                            (OpConcat (OpLiteral true "K") (OpLiteral true "E")))))))).
    + vm_compute. tauto.
    + vm_compute. reflexivity.
    + vm_compute. reflexivity.
Defined.


Import replication.

Lemma rowEventType_cases (et : EventType) :
  match rowEventType et with
  | Some bf.InsertEvent =>
      et = WRITE_ROWS_EVENTv0 \/ et = WRITE_ROWS_EVENTv1 \/ et = WRITE_ROWS_EVENTv2
  | Some bf.UpdateEvent =>
      et = UPDATE_ROWS_EVENTv0 \/ et = UPDATE_ROWS_EVENTv1 \/ et = UPDATE_ROWS_EVENTv2
  | Some bf.DeleteEvent =>
      et = DELETE_ROWS_EVENTv0 \/ et = DELETE_ROWS_EVENTv1 \/ et = DELETE_ROWS_EVENTv2
  | Some _ => False
  | None =>
      ~ In et [WRITE_ROWS_EVENTv0; WRITE_ROWS_EVENTv1; WRITE_ROWS_EVENTv2;
               UPDATE_ROWS_EVENTv0; UPDATE_ROWS_EVENTv1; UPDATE_ROWS_EVENTv2;
               DELETE_ROWS_EVENTv0; DELETE_ROWS_EVENTv1; DELETE_ROWS_EVENTv2]
  end.
Proof.
  unfold rowEventType.
  repeat match goal with
  | |- context [N.eqb et ?c] => destruct (N.eqb_spec et c); [subst; cbn; tauto |]
  end.
  cbn. intuition congruence.
Qed.

(** C4, as stated, fails: with no binlog filter configured, a row event of
    an unknown subtype on a table that is not in a system schema and
    passes the table filter is let through without error. *)
Lemma skipDMLEvent_unknown_subtype_passes :
  rowEventType 0%N = None /\
  ApplyOn None [mkTable (Strings.ToLower "shop") (Strings.ToLower "orders")] <> [] /\
  skipDMLEvent (fun _ => false) (mkSyncer None None) "shop" "orders" 0%N
  = (false, None).
Proof. split; [reflexivity | split; [discriminate | reflexivity]]. Qed.

(** C4, amended.  [skipDMLEvent] maps the subtypes WRITE_ROWS v0/v1/v2 to
    Insert, UPDATE_ROWS v0/v1/v2 to Update and DELETE_ROWS v0/v1/v2 to
    Delete and to nothing else; for a schema that is not a system schema
    and a table that passes the table filter, when a binlog filter is
    configured, it asks that filter with the mapped event type, and for any
    other subtype it returns an error with skip false; when no binlog
    filter is configured it returns skip false and no error, whatever the
    subtype. *)
Theorem skipDMLEvent_subtypes (IsSystemSchema : string -> bool) (s : Syncer)
        (schema table : string) (eventType : EventType) :
  (rowEventType WRITE_ROWS_EVENTv0 = Some bf.InsertEvent /\
   rowEventType WRITE_ROWS_EVENTv1 = Some bf.InsertEvent /\
   rowEventType WRITE_ROWS_EVENTv2 = Some bf.InsertEvent /\
   rowEventType UPDATE_ROWS_EVENTv0 = Some bf.UpdateEvent /\
   rowEventType UPDATE_ROWS_EVENTv1 = Some bf.UpdateEvent /\
   rowEventType UPDATE_ROWS_EVENTv2 = Some bf.UpdateEvent /\
   rowEventType DELETE_ROWS_EVENTv0 = Some bf.DeleteEvent /\
   rowEventType DELETE_ROWS_EVENTv1 = Some bf.DeleteEvent /\
   rowEventType DELETE_ROWS_EVENTv2 = Some bf.DeleteEvent) /\
  (IsSystemSchema schema = false ->
   ApplyOn (bwList s) [mkTable (Strings.ToLower schema) (Strings.ToLower table)] <> [] ->
   (forall flt, binlogFilter s = Some flt ->
      (forall et, rowEventType eventType = Some et ->
         skipDMLEvent IsSystemSchema s schema table eventType =
         match flt (Strings.ToLower schema) (Strings.ToLower table) et bf.NullEvent "" with
         | (_, Some err) =>
             (false, Some (Annotatef err "skip row event %s on `%s`.`%s`"
                             [ArgRowEvent eventType; ArgString (Strings.ToLower schema);
                              ArgString (Strings.ToLower table)]))
         | (action, None) => (bf.is_Ignore action, None)
         end) /\
      (~ In eventType
            [WRITE_ROWS_EVENTv0; WRITE_ROWS_EVENTv1; WRITE_ROWS_EVENTv2;
             UPDATE_ROWS_EVENTv0; UPDATE_ROWS_EVENTv1; UPDATE_ROWS_EVENTv2;
             DELETE_ROWS_EVENTv0; DELETE_ROWS_EVENTv1; DELETE_ROWS_EVENTv2] ->
       exists err, skipDMLEvent IsSystemSchema s schema table eventType
                   = (false, Some err))) /\
   (binlogFilter s = None ->
      skipDMLEvent IsSystemSchema s schema table eventType = (false, None))).
Proof.
  split; [repeat split |].
  intros Hsys Hpass. unfold skipDMLEvent. rewrite Hsys.
  destruct (length _ =? 0)%nat eqn:El.
  { exfalso. apply Hpass. destruct (ApplyOn _ _); [reflexivity | discriminate]. }
  split.
  - intros flt Hflt. rewrite Hflt. split.
    + intros et Het. rewrite Het. reflexivity.
    + intros Hnot. pose proof (rowEventType_cases eventType) as Hc.
      destruct (rowEventType eventType) as [[| | | |k]|].
      * contradiction.
      * exfalso. apply Hnot. destruct Hc as [-> | [-> | ->]]; cbn; tauto.
      * exfalso. apply Hnot. destruct Hc as [-> | [-> | ->]]; cbn; tauto.
      * exfalso. apply Hnot. destruct Hc as [-> | [-> | ->]]; cbn; tauto.
      * contradiction.
      * eexists. reflexivity.
  - intros Hnone. rewrite Hnone. reflexivity.
Qed.

(** A binlog filter that ignores deletes. *)
Lemma skipDMLEvent_subtypes_witness :
  let flt : BinlogEvent :=
    fun _ _ ev _ _ =>
      (match ev with bf.DeleteEvent => bf.Ignore | _ => bf.Do end, None) in
  let s := mkSyncer (Some FilterSpec.exampleFilter) (Some flt) in
  skipDMLEvent (fun _ => false) s "Shop" "Orders_1" DELETE_ROWS_EVENTv2 = (true, None) /\
  exists err, skipDMLEvent (fun _ => false) s "Shop" "Orders_1" TABLE_MAP_EVENT
              = (false, Some err).
Proof.
  intros flt s.
  assert (Hpass : ApplyOn (bwList s) [mkTable (Strings.ToLower "Shop") (Strings.ToLower "Orders_1")] <> [])
    by (vm_compute; discriminate).
  split.
  - rewrite (proj1 (proj1 (proj2 (skipDMLEvent_subtypes (fun _ => false) s
                                    "Shop" "Orders_1" DELETE_ROWS_EVENTv2)
                                 eq_refl Hpass) flt eq_refl)
                   bf.DeleteEvent eq_refl).
    reflexivity.
  - apply (proj2 (proj1 (proj2 (skipDMLEvent_subtypes (fun _ => false) s
                                  "Shop" "Orders_1" TABLE_MAP_EVENT)
                               eq_refl Hpass) flt eq_refl)).
    vm_compute. intuition discriminate.
Defined.

End SyncerFacts.

(* ===================================================================== *)
(** * Properties of the pre-check unit *)
(* ===================================================================== *)

Module CheckerFacts.
Import checker CheckerSpec.

Lemma closedDBs_app (e1 e2 : list event) :
  closedDBs (e1 ++ e2) = closedDBs e1 ++ closedDBs e2.
Proof.
  induction e1 as [|e l IH]; [reflexivity|].
  destruct e; simpl; rewrite IH; reflexivity.
Qed.

Lemma closedDBs_closeOne w db format info :
  closedDBs (closeOne w db format info)
  = match db with Some d => [d] | None => [] end.
Proof.
  destruct db as [d|]; [| reflexivity]. simpl.
  destruct (CloseDB w d); reflexivity.
Qed.

Lemma closedDBs_instances w (l : list mysqlInstance) :
  closedDBs (flat_map (closeInstance w) l)
  = flat_map (fun i => match sourceDB i with Some db => [db] | None => [] end
                       ++ match targetDB i with Some db => [db] | None => [] end) l.
Proof.
  induction l as [|i l IH]; [reflexivity|].
  simpl. rewrite closedDBs_app, IH. unfold closeInstance.
  rewrite closedDBs_app, !closedDBs_closeOne. reflexivity.
Qed.

Lemma Close_closed w c : closed (fst (Close w c)) = true.
Proof. unfold Close. destruct (closed c) eqn:E; [exact E | reflexivity]. Qed.

Lemma Close_when_closed w c : closed c = true -> Close w c = (c, []).
Proof. intros H. unfold Close. rewrite H. reflexivity. Qed.

Lemma repeatCall_Close_closed w n c :
  closed c = true -> repeatCall (Close w) n c = (c, []).
Proof.
  intros H. induction n as [|n IH]; [reflexivity|].
  simpl. unfold seq2. rewrite (Close_when_closed w c H), IH. reflexivity.
Qed.

(** C6. Every call of [Process] sends exactly one result on the result
    channel; its errors are one CheckFailed error when the summary of the
    checks is not passed and none when it is passed; it is marked canceled
    exactly when the derived context is done at the check after the run. *)
Theorem Process_one_result (w : world) (c : Checker) :
  exists pr, sent (snd (Process w c)) = [pr] /\
    (check.Passed (check.Summary_ (Do w (checkList c))) = false ->
       exists msg, pb.Errors pr = [pb.mkProcessError pb.ErrorType_CheckFailed msg]) /\
    (check.Passed (check.Summary_ (Do w (checkList c))) = true ->
       pb.Errors pr = []) /\
    (pb.IsCanceled pr = true <-> cctxDone w = true).
Proof.
  unfold Process. eexists. split; [reflexivity|]. simpl.
  split; [| split].
  - intros ->. simpl. eexists. reflexivity.
  - intros ->. reflexivity.
  - destruct (cctxDone w); split; congruence.
Qed.

Lemma Process_one_result_witness :
  exists pr, sent (snd (Process exampleWorld exampleChecker)) = [pr] /\
    length (pb.Errors pr) = 1%nat /\ pb.IsCanceled pr = true.
Proof.
  destruct (Process_one_result exampleWorld exampleChecker)
    as (pr & Hsent & Hfail & _ & Hcancel).
  exists pr. split; [exact Hsent|]. split.
  - destruct (Hfail eq_refl) as (msg & ->). reflexivity.
  - apply Hcancel. reflexivity.
Defined.

(** C8 at the failing input: [Status] on a checker that has not completed
    a [Process] dereferences the nil [result.detail] and panics. *)
Theorem Status_before_Process (w : world) (cfgs : list SubTaskConfig) :
  Status w (NewChecker cfgs) = Panic NilDereference.
Proof. reflexivity. Qed.

(** After a [Process], [Status] reports the summary that [Process] stored. *)
Lemma Status_after_Process w c :
  exists st, Status w (fst (Process w c)) = Ok st /\
    pb.cs_Passed st = check.Passed (check.Summary_ (Do w (checkList c))).
Proof. unfold Status, Process. simpl. eexists. split; reflexivity. Qed.

(** C9. [Close] leaves the closed flag set; on a closed checker it returns
    at once and closes no connection; so in any number of calls in a row
    the connections are closed at most once, by the first call, which
    closes each owned connection once, whether or not closing one fails. *)
Theorem Close_idempotent (w : world) (c : Checker) :
  closed (fst (Close w c)) = true /\
  (closed c = true -> Close w c = (c, [])) /\
  Close w (fst (Close w c)) = (fst (Close w c), []) /\
  (forall n, snd (repeatCall (Close w) (S n) c) = snd (Close w c)) /\
  (closed c = false -> closedDBs (snd (Close w c)) = ownedDBs c) /\
  (forall db err, closed c = false -> In db (ownedDBs c) -> CloseDB w db = Some err ->
     exists format info, In (EvLogError format info err) (snd (Close w c))).
Proof.
  split; [apply Close_closed |].
  split; [apply Close_when_closed |].
  split; [apply Close_when_closed, Close_closed |].
  split.
  - intros n. simpl. unfold seq2.
    destruct (Close w c) as [c1 e1] eqn:E1.
    assert (Hc1 : closed c1 = true).
    { pose proof (Close_closed w c) as H. rewrite E1 in H. exact H. }
    rewrite (repeatCall_Close_closed w n c1 Hc1). simpl. apply app_nil_r.
  - split.
    { intros Hopen. unfold Close. rewrite Hopen. simpl. apply closedDBs_instances. }
    intros db err Hopen Hin Herr. unfold Close. rewrite Hopen. simpl.
    unfold ownedDBs in Hin. apply in_flat_map in Hin as (i & Hi & Hdb).
    assert (Hone : forall o format info,
              In db (match o with Some d => [d] | None => [] end) ->
              In (EvLogError format info err) (closeOne w o format info)).
    { intros [d|] format info Hd; [| destruct Hd].
      destruct Hd as [-> | []]. simpl. rewrite Herr. right. left. reflexivity. }
    apply in_app_iff in Hdb as [Hd | Hd].
    + do 2 eexists. apply in_flat_map. exists i. split; [exact Hi|].
      unfold closeInstance. apply in_app_iff. left. apply Hone. exact Hd.
    + do 2 eexists. apply in_flat_map. exists i. split; [exact Hi|].
      unfold closeInstance. apply in_app_iff. right. apply Hone. exact Hd.
Qed.


Lemma Close_idempotent_witness :
  closedDBs (snd (Close exampleWorld exampleChecker)) = [7; 8; 9] /\
  Close exampleWorld (fst (Close exampleWorld exampleChecker))
  = (fst (Close exampleWorld exampleChecker), []).
Proof.
  split.
  - rewrite (proj1 (proj2 (proj2 (proj2 (proj2
               (Close_idempotent exampleWorld exampleChecker))))) eq_refl).
    reflexivity.
  - apply (proj1 (proj2 (Close_idempotent exampleWorld
                           (fst (Close exampleWorld exampleChecker)))) eq_refl).
Defined.

End CheckerFacts.

(* ===================================================================== *)
(** * Case-insensitivity of rule matching *)
(* ===================================================================== *)

Module CaseFacts.
Import Regexp RegexpSpec filter FilterSpec syncer.







End CaseFacts.

(* ===================================================================== *)
(** * Plain names and tilde patterns *)
(* ===================================================================== *)

Module PatternFacts.
Import Strings Regexp RegexpSpec filter FilterSpec PatternSpec.

Lemma tokenize_plain (c : ascii) (s : string) :
  isMeta c = false -> tokenize (String c s) = consTok (TLit c) (tokenize s).
Proof.
  unfold isMeta. intros H.
  repeat (apply orb_false_elim in H; destruct H as [H ?]).
  cbn [tokenize]. unfold repop_of.
  repeat match goal with
         | E : is_char c _ = false |- _ => rewrite E; clear E
         end.
  reflexivity.
Qed.

Lemma tokenize_noMeta (s : string) (tail : string) (ts : list token) :
  noMeta s = true -> tokenize tail = Some ts ->
  tokenize (s +:+ tail) = Some (map TLit (list_ascii_of_string s) ++ ts).
Proof.
  intros Hs Ht. induction s as [|c s IH]; [exact Ht|].
  simpl in Hs. apply andb_true_iff in Hs as [Hc Hs].
  apply negb_true_iff in Hc.
  change (String c s +:+ tail) with (String c (s +:+ tail)).
  rewrite (tokenize_plain c _ Hc), (IH Hs). reflexivity.
Qed.

Lemma prun_literals (cs : list ascii) : forall alts items stack ts,
  prun (PState true alts items stack false) (map TLit cs ++ ts)
  = prun (PState true alts (rev (map (OpLiteral true) cs) ++ items) stack false) ts.
Proof.
  induction cs as [|c cs IH]; intros alts items stack ts; [reflexivity|].
  simpl. unfold push. simpl. rewrite IH, <- app_assoc. reflexivity.
Qed.


Lemma concat_of_cons (x : regex) (l : list regex) :
  l <> [] -> concat_of (x :: l) = OpConcat x (concat_of l).
Proof. destruct l; [contradiction | reflexivity]. Qed.

(** A plain name compiles to the matcher that reads the whole input, in
    any case. *)
Lemma Compile_plainName (p : string) :
  plainName p = true ->
  Compile (sourceOf p) = Some (OpConcat OpBeginText (wholeText p)).
Proof.
  destruct p as [|c rest]; [discriminate|]. intros Hp.
  unfold plainName in Hp. apply andb_true_iff in Hp as [Hc Hs].
  simpl sourceOf. unfold regexSource. rewrite Hc.
  unfold Compile.
  change (tokenize ("(?i)^" +:+ String c rest +:+ "$"))
    with (consTok (TFlag true) (consTok TBeginText (tokenize (String c rest +:+ "$")))).
  rewrite (tokenize_noMeta (String c rest) "$" [TEndText] Hs eq_refl).
  unfold wholeText, literals.
  generalize (list_ascii_of_string (String c rest)) as cs. intros cs.
  cbn [consTok prun pstep pinit push p_fold p_alts p_items p_stack p_afterRep].
  unfold push. cbn [p_fold p_alts p_items p_stack].
  rewrite prun_literals.
  cbn [prun pstep push pfinish p_fold p_alts p_items p_stack p_afterRep].
  unfold collapse.
  cbn [rev app alternate_of].
  rewrite rev_app_distr, rev_involutive. cbn [rev app].
  rewrite concat_of_cons; [reflexivity|].
  destruct (map _ _); discriminate.
Qed.

(** ** What the compiled matchers accept *)

Lemma anchored_off_start (r : regex) :
  anchored r = true ->
  (forall eot, nullable false eot r = false) /\
  (forall c, deriv false c r = OpNoMatch).
Proof.
  induction r as [| | f d | neg k | | | | a IHa b IHb | a IHa b IHb
                  | a IHa | a IHa | a IHa]; simpl; intros Ha; try discriminate.
  - split; reflexivity.
  - destruct (IHa Ha) as (Hn & Hd). split.
    + intros eot. rewrite Hn. reflexivity.
    + intros c. rewrite Hd, Hn. reflexivity.
  - apply andb_true_iff in Ha as [Ha Hb].
    destruct (IHa Ha) as (Hna & Hda). destruct (IHb Hb) as (Hnb & Hdb). split.
    + intros eot. rewrite Hna, Hnb. reflexivity.
    + intros c. rewrite Hda, Hdb. reflexivity.
Qed.

Lemma match_prefix_anchored (r : regex) (s : string) :
  anchored r = true -> match_prefix false r s = false.
Proof.
  intros Ha. destruct (anchored_off_start r Ha) as (Hn & Hd).
  destruct s as [|c s]; simpl; rewrite Hn; [reflexivity|].
  rewrite Hd. apply RegexpFacts.match_prefix_NoMatch.
Qed.

Lemma search_anchored_off_start (r : regex) (s : string) :
  anchored r = true -> search false r s = false.
Proof.
  intros Ha. induction s as [|c s IH]; cbn [search];
    rewrite (match_prefix_anchored r _ Ha); [reflexivity | exact IH].
Qed.

(** An anchored expression finds a match only at the start of the input. *)
Lemma search_anchored (r : regex) (s : string) :
  anchored r = true -> search true r s = match_prefix true r s.
Proof.
  intros Ha. destruct s as [|c s]; cbn [search].
  - apply orb_false_r.
  - rewrite (search_anchored_off_start r s Ha). apply orb_false_r.
Qed.

Lemma match_prefix_BeginText (r : regex) (s : string) :
  match_prefix true (OpConcat OpBeginText r) s = match_prefix true r s.
Proof.
  destruct s as [|c s]; simpl; [reflexivity|].
  destruct (deriv true c r); reflexivity.
Qed.

Lemma wholeText_cons (c : ascii) (s : string) :
  wholeText (String c s) = OpConcat (OpLiteral true c) (wholeText s).
Proof.
  unfold wholeText, literals. simpl. apply concat_of_cons.
  destruct (map _ _); discriminate.
Qed.

Lemma wholeText_shape (s : string) :
  wholeText s = OpEndText \/ exists a b, wholeText s = OpConcat a b.
Proof.
  destruct s as [|c s]; [left; reflexivity|].
  right. rewrite wholeText_cons. eauto.
Qed.

Lemma match_prefix_wholeText (p : string) : forall bot t,
  match_prefix bot (wholeText p) t = String.eqb (Strings.ToLower p) (Strings.ToLower t).
Proof.
  induction p as [|c p IH]; intros bot t.
  - destruct t as [|d t]; simpl; [reflexivity|].
    apply RegexpFacts.match_prefix_NoMatch.
  - rewrite wholeText_cons. destruct t as [|d t]; [reflexivity|].
    cbn [match_prefix nullable deriv andb orb Strings.ToLower String.eqb].
    unfold lit_eq. destruct (Ascii.eqb (lower_char c) (lower_char d)).
    + rewrite <- (IH false t).
      destruct (wholeText_shape p) as [-> | (a & b & ->)]; reflexivity.
    + destruct (wholeText p); cbn; apply RegexpFacts.match_prefix_NoMatch.
Qed.

(** The matcher of a plain name accepts the texts equal to the name up to
    case. *)
Lemma MatchString_plainName (p t : string) :
  MatchString (OpConcat OpBeginText (wholeText p)) t
  = String.eqb (Strings.ToLower p) (Strings.ToLower t).
Proof.
  unfold MatchString. rewrite search_anchored by reflexivity.
  rewrite match_prefix_BeginText. apply match_prefix_wholeText.
Qed.


Lemma tokenize_noMeta_end (s : string) :
  noMeta s = true -> tokenize s = Some (map TLit (list_ascii_of_string s)).
Proof.
  intros Hs. induction s as [|c s IH]; [reflexivity|].
  simpl in Hs. apply andb_true_iff in Hs as [Hc Hs]. apply negb_true_iff in Hc.
  rewrite (tokenize_plain c _ Hc), (IH Hs). reflexivity.
Qed.

(** A tilde followed by plain text compiles to the matcher that reads
    that text, in any case. *)
Lemma Compile_tilde (q : string) :
  noMeta q = true -> Compile (sourceOf ("~" +:+ q)) = Some (someText q).
Proof.
  intros Hq. change (sourceOf ("~" +:+ q)) with ("(?i)" +:+ q)%string.
  unfold Compile.
  change (tokenize ("(?i)" +:+ q)) with (consTok (TFlag true) (tokenize q)).
  rewrite (tokenize_noMeta_end q Hq). unfold someText, literals.
  generalize (list_ascii_of_string q) as cs. intros cs.
  cbn [consTok prun pstep pinit p_fold p_alts p_items p_stack p_afterRep].
  rewrite <- (app_nil_r (map TLit cs)), prun_literals.
  cbn [prun pfinish p_stack p_alts p_items]. unfold collapse.
  cbn [rev app alternate_of]. rewrite app_nil_r, rev_involutive. reflexivity.
Qed.

Lemma Compile_tilde_anchored (q : string) :
  noMeta q = true ->
  Compile (sourceOf ("~^" +:+ q)) = Some (concat_of (OpBeginText :: literals q)).
Proof.
  intros Hq. change (sourceOf ("~^" +:+ q)) with ("(?i)^" +:+ q)%string.
  unfold Compile.
  change (tokenize ("(?i)^" +:+ q))
    with (consTok (TFlag true) (consTok TBeginText (tokenize q))).
  rewrite (tokenize_noMeta_end q Hq). unfold literals.
  generalize (list_ascii_of_string q) as cs. intros cs.
  cbn [consTok prun pstep pinit push p_fold p_alts p_items p_stack p_afterRep].
  unfold push. cbn [p_fold p_alts p_items p_stack].
  rewrite <- (app_nil_r (map TLit cs)), prun_literals.
  cbn [prun pfinish p_stack p_alts p_items]. unfold collapse.
  cbn [rev app alternate_of]. rewrite rev_app_distr, rev_involutive. reflexivity.
Qed.

Lemma someText_cons (c : ascii) (s : string) :
  s <> "" -> someText (String c s) = OpConcat (OpLiteral true c) (someText s).
Proof.
  intros Hs. unfold someText, literals. simpl. apply concat_of_cons.
  destruct s; [contradiction | discriminate].
Qed.

Lemma someText_shape (c : ascii) (s : string) :
  (exists d, someText (String c s) = OpLiteral true d) \/
  exists a b, someText (String c s) = OpConcat a b.
Proof.
  destruct s as [|d s]; [left; eexists; reflexivity|].
  right. rewrite someText_cons by discriminate. eauto.
Qed.

Lemma match_prefix_EmptyMatch (bot : bool) (t : string) :
  match_prefix bot OpEmptyMatch t = true.
Proof. destruct t; reflexivity. Qed.

Lemma prefix_lower_cons (c d : ascii) (p t : string) :
  String.prefix (Strings.ToLower (String c p)) (Strings.ToLower (String d t))
  = Ascii.eqb (lower_char c) (lower_char d)
    && String.prefix (Strings.ToLower p) (Strings.ToLower t).
Proof.
  simpl. destruct (ascii_dec (lower_char c) (lower_char d)) as [-> | Hne].
  - rewrite Ascii.eqb_refl. reflexivity.
  - apply Ascii.eqb_neq in Hne. rewrite Hne. reflexivity.
Qed.

Lemma match_prefix_someText (p : string) : forall bot t,
  match_prefix bot (someText p) t
  = String.prefix (Strings.ToLower p) (Strings.ToLower t).
Proof.
  induction p as [|c p IH]; intros bot t.
  - rewrite match_prefix_EmptyMatch. destruct t; reflexivity.
  - destruct t as [|d t].
    + destruct (someText_shape c p) as [(x & ->) | (a & b & E)]; [reflexivity|].
      destruct p as [|e p]; [discriminate|].
      rewrite someText_cons by discriminate. reflexivity.
    + rewrite prefix_lower_cons. destruct p as [|e p].
      * change (someText (String c "")) with (OpLiteral true c).
        cbn [match_prefix nullable deriv orb]. unfold lit_eq.
        destruct (Ascii.eqb (lower_char c) (lower_char d)).
        -- rewrite match_prefix_EmptyMatch. destruct t; reflexivity.
        -- apply RegexpFacts.match_prefix_NoMatch.
      * rewrite someText_cons by discriminate.
        cbn [match_prefix nullable deriv andb orb]. unfold lit_eq.
        destruct (Ascii.eqb (lower_char c) (lower_char d)).
        -- rewrite <- (IH false t).
           destruct (someText_shape e p) as [(x & ->) | (a & b & ->)]; reflexivity.
        -- destruct (someText (String e p)); cbn;
             apply RegexpFacts.match_prefix_NoMatch.
Qed.


Lemma prefix_app_iff (p t : string) :
  String.prefix p t = true <-> exists rest, t = (p +:+ rest)%string.
Proof.
  revert t. induction p as [|c p IH]; intros t.
  - split; [intros _; exists t; reflexivity | destruct t; reflexivity].
  - destruct t as [|d t]; simpl.
    + split; [discriminate | intros (rest & H); discriminate].
    + destruct (ascii_dec c d) as [-> | Hne].
      * rewrite IH. split; intros (rest & H); exists rest.
        -- rewrite H. reflexivity.
        -- change (String d t = String d (p +:+ rest)) in H. congruence.
      * split; [discriminate|]. intros (rest & H).
        change (String d t = String c (p +:+ rest)) in H. congruence.
Qed.

Lemma ToLower_app (a b : string) :
  Strings.ToLower (a +:+ b) = (Strings.ToLower a +:+ Strings.ToLower b)%string.
Proof. induction a as [|c a IH]; simpl; [| rewrite IH]; reflexivity. Qed.

Lemma ToLower_split (x y : string) : forall t,
  Strings.ToLower t = (x +:+ y)%string ->
  exists a b, t = (a +:+ b)%string /\ Strings.ToLower a = x /\ Strings.ToLower b = y.
Proof.
  induction x as [|c x IH]; intros t Ht.
  - exists ""%string, t. auto.
  - destruct t as [|d t]; [discriminate|]. simpl in Ht. injection Ht as Hc Ht.
    destruct (IH t Ht) as (a & b & -> & Ha & Hb).
    exists (String d a), b. simpl. rewrite Ha, Hc. auto.
Qed.

(** A search finds a match where the expression matches at the start of
    some suffix of the input. *)
Lemma search_suffix (r : regex) (P : string -> bool) :
  (forall bot t, match_prefix bot r t = P t) ->
  forall t bot, search bot r t = true <->
                exists a b, t = (a +:+ b)%string /\ P b = true.
Proof.
  intros HP. induction t as [|c t IH]; intros bot; cbn [search]; rewrite HP.
  - rewrite orb_false_r. split.
    + intros H. exists ""%string, ""%string. auto.
    + intros (a & b & Hab & Hb). destruct a as [|d a].
      * change (EmptyString = b) in Hab. subst b. exact Hb.
      * change (EmptyString = String d (a +:+ b)) in Hab. discriminate.
  - rewrite orb_true_iff, IH. split.
    + intros [H | (a & b & -> & Hb)].
      * exists ""%string, (String c t). auto.
      * exists (String c a), b. auto.
    + intros (a & b & Hab & Hb). destruct a as [|d a].
      * change (String c t = b) in Hab. subst b. left. exact Hb.
      * change (String c t = String d (a +:+ b)) in Hab.
        injection Hab as -> ->. right. exists a, b. auto.
Qed.

(** X1. In a filter built by [New], a rule that is a plain name matches
    exactly the candidates equal to it up to the case of letters, for
    ASCII names. *)
Theorem plain_name_matches_by_equality (r : Rules) (f : Filter) (p t : string) :
  New (Some r) = Ok f -> In p (patternsOf r) -> plainName p = true ->
  asciiOnly p = true -> asciiOnly t = true ->
  matchString f p t = String.eqb (Strings.ToLower p) (Strings.ToLower t).
Proof.
  intros Hnew Hin Hp _ _.
  destruct (FilterFacts.New_Ok_at r f p Hnew Hin) as (_ & re & Hl & Hc).
  rewrite (Compile_plainName p Hp) in Hc. injection Hc as <-.
  unfold matchString. rewrite Hl. apply MatchString_plainName.
Qed.

Lemma plain_name_matches_by_equality_witness :
  matchString exampleFilter "shop" "SHOP" = true /\
  matchString exampleFilter "shop" "shopping" = false.
Proof.
  assert (Hnew : New (Some exampleRules) = Ok exampleFilter) by (vm_compute; reflexivity).
  assert (Hin : In "shop"%string (patternsOf exampleRules)) by (left; reflexivity).
  split.
  - rewrite (plain_name_matches_by_equality exampleRules exampleFilter "shop" "SHOP"
               Hnew Hin eq_refl eq_refl eq_refl).
    reflexivity.
  - rewrite (plain_name_matches_by_equality exampleRules exampleFilter "shop" "shopping"
               Hnew Hin eq_refl eq_refl eq_refl).
    reflexivity.
Defined.

(** X2. [New] does not panic on rules all of whose entries are plain
    ASCII names. *)
Theorem New_total_on_plain_names (r : Rules) :
  plainRules r -> exists f, New (Some r) = Ok f.
Proof.
  intros Hall. rewrite FilterFacts.New_forRange.
  apply FilterFacts.forRange_addOneRegex_total. intros p Hp.
  destruct (Hall p Hp) as (Hplain & _). clear Hall. rename Hplain into Hall. split.
  - destruct p; [discriminate | discriminate].
  - rewrite (Compile_plainName p Hall). discriminate.
Qed.

Lemma New_total_on_plain_names_witness :
  exists f, New (Some (mkRules [mkTable "shop" "orders"] ["shop"; "crm"] [] ["test"]))
            = Ok f.
Proof.
  apply New_total_on_plain_names. intros p Hp. vm_compute in Hp.
  repeat (destruct Hp as [<- | Hp]; [split; reflexivity |]). destruct Hp.
Defined.

Lemma MatchString_caret_text (q t : string) :
  MatchString (concat_of (OpBeginText :: literals q)) t
  = String.prefix (Strings.ToLower q) (Strings.ToLower t).
Proof.
  unfold MatchString. destruct q as [|c q].
  - change (concat_of (OpBeginText :: literals "")) with OpBeginText.
    rewrite search_anchored by reflexivity. destruct t; reflexivity.
  - rewrite concat_of_cons by discriminate.
    rewrite search_anchored by reflexivity.
    rewrite match_prefix_BeginText. apply match_prefix_someText.
Qed.

(** X3. In a filter built by [New], a rule made of a tilde, a caret and
    plain text matches exactly the candidates that start with that text,
    up to the case of letters, for ASCII text. *)
Theorem tilde_caret_matches_prefix (r : Rules) (f : Filter) (q t : string) :
  New (Some r) = Ok f -> In ("~^" +:+ q)%string (patternsOf r) -> noMeta q = true ->
  asciiOnly q = true -> asciiOnly t = true ->
  matchString f ("~^" +:+ q) t
  = String.prefix (Strings.ToLower q) (Strings.ToLower t).
Proof.
  intros Hnew Hin Hq _ _.
  destruct (FilterFacts.New_Ok_at r f _ Hnew Hin) as (_ & re & Hl & Hc).
  rewrite (Compile_tilde_anchored q Hq) in Hc. injection Hc as <-.
  unfold matchString. rewrite Hl. apply MatchString_caret_text.
Qed.

Lemma tilde_caret_matches_prefix_witness :
  matchString exampleFilter "~^tmp_" "TMP_orders" = true /\
  matchString exampleFilter "~^tmp_" "orders_tmp" = false.
Proof.
  assert (Hnew : New (Some exampleRules) = Ok exampleFilter) by (vm_compute; reflexivity).
  assert (Hin : In ("~^" +:+ "tmp_")%string (patternsOf exampleRules))
    by (right; left; reflexivity).
  split.
  - exact (tilde_caret_matches_prefix exampleRules exampleFilter "tmp_" "TMP_orders"
             Hnew Hin eq_refl eq_refl eq_refl).
  - exact (tilde_caret_matches_prefix exampleRules exampleFilter "tmp_" "orders_tmp"
             Hnew Hin eq_refl eq_refl eq_refl).
Defined.

(** X4. In a filter built by [New], a rule made of a tilde and plain text
    matches exactly the candidates that contain that text, up to the case
    of letters, for ASCII text: a tilde rule is a search, not a match of
    the whole name. *)
Theorem tilde_matches_substring (r : Rules) (f : Filter) (q t : string) :
  New (Some r) = Ok f -> In ("~" +:+ q)%string (patternsOf r) -> noMeta q = true ->
  asciiOnly q = true -> asciiOnly t = true ->
  (matchString f ("~" +:+ q) t = true <->
   exists a b, Strings.ToLower t = (a +:+ Strings.ToLower q +:+ b)%string).
Proof.
  intros Hnew Hin Hq _ _.
  destruct (FilterFacts.New_Ok_at r f _ Hnew Hin) as (_ & re & Hl & Hc).
  rewrite (Compile_tilde q Hq) in Hc. injection Hc as <-.
  unfold matchString. rewrite Hl. unfold MatchString.
  rewrite (search_suffix (someText q)
             (fun t => String.prefix (Strings.ToLower q) (Strings.ToLower t))
             (match_prefix_someText q)).
  split.
  - intros (a & b & -> & Hb). apply prefix_app_iff in Hb as (rest & Hb).
    exists (Strings.ToLower a), rest. rewrite ToLower_app, Hb. reflexivity.
  - intros (a & b & Hab). apply ToLower_split in Hab as (a' & b' & -> & _ & Hb).
    exists a', b'. split; [reflexivity|]. apply prefix_app_iff. exists b. exact Hb.
Qed.

Lemma tilde_matches_substring_witness :
  exists f, New (Some (mkRules [] ["~bak"] [] [])) = Ok f /\
            matchString f "~bak" "Orders_BAK_2019" = true.
Proof.
  eexists. split; [vm_compute; reflexivity|].
  apply (tilde_matches_substring (mkRules [] ["~bak"] [] []) _ "bak" "Orders_BAK_2019").
  - vm_compute. reflexivity.
  - left. reflexivity.
  - reflexivity.
  - reflexivity.
  - reflexivity.
  - exists "orders_"%string, "_2019"%string. reflexivity.
Defined.


(** ** A bar in a rule that has no tilde *)

Lemma append_assoc (a b c : string) :
  ((a +:+ b) +:+ c)%string = (a +:+ (b +:+ c))%string.
Proof.
  induction a as [|x a IH]; [reflexivity|].
  change (String x ((a +:+ b) +:+ c) = String x (a +:+ (b +:+ c)))%string.
  rewrite IH. reflexivity.
Qed.

Lemma Compile_bar (p q : string) :
  plainName p = true -> noMeta q = true ->
  Compile (sourceOf (p +:+ "|" +:+ q))
  = Some (OpAlternate (concat_of (OpBeginText :: literals p)) (wholeText q)).
Proof.
  destruct p as [|c rest]; [discriminate|]. intros Hp Hq.
  unfold plainName in Hp. apply andb_true_iff in Hp as [Hc Hs].
  change (sourceOf (String c rest +:+ "|" +:+ q))
    with (regexSource c (rest +:+ "|" +:+ q)).
  unfold regexSource. rewrite Hc. unfold Compile.
  change (tokenize ("(?i)^" +:+ String c (rest +:+ "|" +:+ q) +:+ "$"))
    with (consTok (TFlag true)
            (consTok TBeginText (tokenize (String c (rest +:+ "|" +:+ q) +:+ "$")))).
  assert (Happ : (String c (rest +:+ "|" +:+ q) +:+ "$")%string
                 = (String c rest +:+ ("|" +:+ (q +:+ "$")))%string).
  { change (String c ((rest +:+ ("|" +:+ q)) +:+ "$")
            = String c (rest +:+ ("|" +:+ (q +:+ "$"))))%string.
    rewrite append_assoc. reflexivity. }
  rewrite Happ.
  rewrite (tokenize_noMeta (String c rest) ("|" +:+ (q +:+ "$"))
             (TBar :: map TLit (list_ascii_of_string q) ++ [TEndText]) Hs).
  2:{ change (tokenize ("|" +:+ (q +:+ "$"))) with (consTok TBar (tokenize (q +:+ "$"))).
      rewrite (tokenize_noMeta q "$" [TEndText] Hq eq_refl). reflexivity. }
  unfold wholeText, literals.
  generalize (list_ascii_of_string (String c rest)) as cs. intros cs.
  generalize (list_ascii_of_string q) as ds. intros ds.
  cbn [consTok prun pstep pinit push p_fold p_alts p_items p_stack p_afterRep].
  unfold push. cbn [p_fold p_alts p_items p_stack].
  rewrite prun_literals.
  cbn [prun pstep push p_fold p_alts p_items p_stack p_afterRep].
  rewrite (prun_literals ds _ [] [] [TEndText]).
  cbn [prun pstep push pfinish p_fold p_alts p_items p_stack p_afterRep].
  unfold push. cbn [prun pfinish p_fold p_alts p_items p_stack p_afterRep].
  unfold collapse. rewrite app_nil_r.
  cbn [rev app alternate_of].
  rewrite !rev_app_distr, !rev_involutive. reflexivity.
Qed.

Lemma search_wholeText (q t : string) (bot : bool) :
  search bot (wholeText q) t = true <->
  exists a, Strings.ToLower t = (a +:+ Strings.ToLower q)%string.
Proof.
  rewrite (search_suffix (wholeText q)
             (fun t => String.eqb (Strings.ToLower q) (Strings.ToLower t))
             (fun bot t => match_prefix_wholeText q bot t)).
  split.
  - intros (a & b & -> & Hb). apply String.eqb_eq in Hb.
    exists (Strings.ToLower a). rewrite ToLower_app, Hb. reflexivity.
  - intros (a & Ha). apply ToLower_split in Ha as (a' & b' & -> & _ & Hb).
    exists a', b'. split; [reflexivity|]. apply String.eqb_eq. symmetry. exact Hb.
Qed.

(** X25. The anchors that [addOneRegex] puts around a rule without tilde
    do not hold a bar together: in a filter built by [New], the rule made
    of two plain texts with a bar between them matches the candidates that
    start with the first text or end with the second, up to the case of
    letters, for ASCII text; it does not ask for the whole name. *)
Theorem bar_rule_matches_prefix_or_suffix (r : Rules) (f : Filter) (p q t : string) :
  New (Some r) = Ok f -> In (p +:+ "|" +:+ q)%string (patternsOf r) ->
  plainName p = true -> noMeta q = true ->
  asciiOnly p = true -> asciiOnly q = true -> asciiOnly t = true ->
  (matchString f (p +:+ "|" +:+ q) t = true <->
   String.prefix (Strings.ToLower p) (Strings.ToLower t) = true \/
   exists a, Strings.ToLower t = (a +:+ Strings.ToLower q)%string).
Proof.
  intros Hnew Hin Hp Hq _ _ _.
  destruct (FilterFacts.New_Ok_at r f _ Hnew Hin) as (_ & re & Hl & Hc).
  rewrite (Compile_bar p q Hp Hq) in Hc. injection Hc as <-.
  unfold matchString. rewrite Hl. unfold MatchString.
  rewrite RegexpFacts.search_Alternate, orb_true_iff.
  pose proof (MatchString_caret_text p t) as H1. unfold MatchString in H1.
  cbn [concat_of] in H1. rewrite H1, search_wholeText. reflexivity.
Qed.

Lemma bar_rule_matches_prefix_or_suffix_witness :
  exists f, New (Some (mkRules [] ["test|tmp"] [] [])) = Ok f /\
            matchString f "test|tmp" "testing_prod" = true.
Proof.
  eexists. split; [vm_compute; reflexivity|].
  apply (bar_rule_matches_prefix_or_suffix (mkRules [] ["test|tmp"] [] []) _
           "test" "tmp" "testing_prod").
  - vm_compute. reflexivity.
  - left. reflexivity.
  - reflexivity.
  - reflexivity.
  - reflexivity.
  - reflexivity.
  - reflexivity.
  - left. reflexivity.
Defined.


(** ** Rules made of plain names *)

Lemma matchString_plain (r : Rules) (f : Filter) (p t : string) :
  New (Some r) = Ok f -> In p (patternsOf r) -> plainName p = true ->
  matchString f p t = sameName p t.
Proof.
  intros Hnew Hin Hp.
  destruct (FilterFacts.New_Ok_at r f p Hnew Hin) as (_ & re & Hl & Hc).
  rewrite (Compile_plainName p Hp) in Hc. injection Hc as <-.
  unfold matchString. rewrite Hl. apply MatchString_plainName.
Qed.

Lemma matchDB_plain (f : Filter) (l : list string) (a : string) :
  (forall p, In p l -> matchString f p a = sameName p a) ->
  matchDB f l a = existsb (fun d => sameName d a) l.
Proof.
  induction l as [|b l IH]; intros H; [reflexivity|]. simpl.
  rewrite (H b (or_introl eq_refl)), IH by (intros p Hp; apply H; right; exact Hp).
  destruct (sameName b a); reflexivity.
Qed.

Lemma matchTable_plain (f : Filter) (l : list Table) (tb : Table) :
  (forall p, In p l ->
     matchString f (Schema p) (Schema tb) = sameName (Schema p) (Schema tb) /\
     matchString f (Name p) (Name tb) = sameName (Name p) (Name tb)) ->
  matchTable f l tb = existsb (sameTable tb) l.
Proof.
  induction l as [|p l IH]; intros H; [reflexivity|]. simpl.
  destruct (H p (or_introl eq_refl)) as (-> & ->).
  rewrite IH by (intros p' Hp'; apply H; right; exact Hp').
  change (sameTable tb p) with
    (sameName (Schema p) (Schema tb) && sameName (Name p) (Name tb)).
  destruct (sameName (Schema p) (Schema tb) && sameName (Name p) (Name tb)); reflexivity.
Qed.

(** X26. For rules all of whose entries are plain ASCII names, the filter
    [New] builds keeps exactly the tables that the rules keep when names
    are compared by equality up to the case of letters: a schema named in
    the do-schemas (or, with no do-schemas, not named in the ignored ones),
    and a table that is named in the do-tables, or, with no do-tables, not
    named in the ignored ones. *)
Theorem plain_rules_filter_by_name (r : Rules) (f : Filter) (stbs : list Table) :
  plainRules r -> asciiTables stbs -> New (Some r) = Ok f ->
  ApplyOn (Some f) stbs = plainApply r stbs.
Proof.
  intros Hplain _ Hnew.
  destruct (FilterFacts.New_Ok r f Hnew) as (Hr & _).
  unfold ApplyOn. rewrite Hr.
  assert (Hm : forall p t, In p (patternsOf r) -> matchString f p t = sameName p t).
  { intros p t Hp. apply (matchString_plain r f p t Hnew Hp).
    exact (proj1 (Hplain p Hp)). }
  assert (Hs : forall tb, filterOnSchemas f r tb = plainSchemaGate r tb).
  { intros tb. unfold filterOnSchemas, findMatchedDoDBs, findMatchedIgnoreDBs,
                      plainSchemaGate.
    rewrite (matchDB_plain f (DoDBs r)), (matchDB_plain f (IgnoreDBs r)).
    - destruct (DoDBs r) as [|d ds].
      + destruct (IgnoreDBs r) as [|g gs]; [reflexivity|].
        cbn [length Nat.ltb Nat.leb].
        destruct (existsb _ (g :: gs)); reflexivity.
      + cbn [length Nat.ltb Nat.leb]. destruct (existsb _ (d :: ds)); reflexivity.
    - intros p Hp. apply Hm. unfold patternsOf. rewrite !in_app_iff. auto.
    - intros p Hp. apply Hm. unfold patternsOf. rewrite !in_app_iff. auto. }
  assert (Ht : forall tb, filterOnTables f r tb = plainTableGate r tb).
  { intros tb. unfold filterOnTables, findMatchedDoTables, findMatchedIgnoreTables,
                      plainTableGate.
    rewrite (matchTable_plain f (DoTables r)), (matchTable_plain f (IgnoreTables r)).
    - destruct (Name tb) as [|c n]; [reflexivity|]. cbn [String.length Nat.eqb is_empty].
      destruct (DoTables r) as [|d ds]; cbn [length Nat.ltb Nat.leb Nat.eqb andb existsb].
      + destruct (IgnoreTables r) as [|g gs]; [reflexivity|].
        cbn [length Nat.ltb Nat.leb andb]. destruct (existsb _ (g :: gs)); reflexivity.
      + destruct (sameTable tb d || existsb (sameTable tb) ds); [reflexivity|].
        destruct (IgnoreTables r) as [|g gs]; [reflexivity|].
        cbn [length Nat.ltb Nat.leb andb]. destruct (existsb _ (g :: gs)); reflexivity.
    - intros p Hp. split; apply Hm; unfold patternsOf; rewrite !in_app_iff;
        right; right; right; unfold tablePatterns; apply in_flat_map;
        exists p; simpl; auto.
    - intros p Hp. split; apply Hm; unfold patternsOf; rewrite !in_app_iff;
        right; left; unfold tablePatterns; apply in_flat_map;
        exists p; simpl; auto. }
  unfold plainApply. induction stbs as [|tb l IH]; [reflexivity|]. simpl.
  rewrite Hs, Ht, IH. reflexivity.
Qed.

Lemma plain_rules_filter_by_name_witness :
  exists f,
    New (Some (mkRules [mkTable "shop" "orders"] ["shop"; "crm"] [] [])) = Ok f /\
    ApplyOn (Some f) [mkTable "SHOP" "Orders"; mkTable "crm" "leads"; mkTable "hr" "staff"]
    = [mkTable "SHOP" "Orders"].
Proof.
  eexists. split; [vm_compute; reflexivity|].
  rewrite (plain_rules_filter_by_name
             (mkRules [mkTable "shop" "orders"] ["shop"; "crm"] [] [])).
  - reflexivity.
  - intros p Hp. vm_compute in Hp.
    repeat (destruct Hp as [<- | Hp]; [split; reflexivity |]). destruct Hp.
  - intros tb Htb. vm_compute in Htb.
    repeat (destruct Htb as [<- | Htb]; [split; reflexivity |]). destruct Htb.
  - vm_compute. reflexivity.
Defined.

End PatternFacts.

(* ===================================================================== *)
(** * Further properties of the table filter *)
(* ===================================================================== *)

Module FilterMore.
Import Strings Regexp filter FilterSpec FilterMoreSpec.

Lemma applyLoop_app f r (a b : list Table) :
  applyLoop f r (a ++ b) = applyLoop f r a ++ applyLoop f r b.
Proof.
  induction a as [|x a IH]; [reflexivity|]. simpl.
  destruct (filterOnSchemas f r x && filterOnTables f r x); simpl; rewrite IH; reflexivity.
Qed.

Lemma applyLoop_sublist f r (l : list Table) : sublist (applyLoop f r l) l.
Proof.
  induction l as [|x l IH]; simpl; [constructor|].
  destruct (filterOnSchemas f r x && filterOnTables f r x); constructor; exact IH.
Qed.

(** X5. [ApplyOn] returns some of the tables it was given, in the order it
    was given them, and judges each table on its own: the result on two
    lists put end to end is the two results put end to end. *)
Theorem ApplyOn_sublist_app (f : option Filter) (a b : list Table) :
  sublist (ApplyOn f a) a /\
  ApplyOn f (a ++ b) = ApplyOn f a ++ ApplyOn f b.
Proof.
  destruct f as [f|]; [| split; reflexivity]. unfold ApplyOn.
  destruct (rules f) as [r|]; [| split; reflexivity].
  split; [apply applyLoop_sublist | apply applyLoop_app].
Qed.

Lemma ToLower_lowerTable (t : Table) : lowerTable (lowerTable t) = lowerTable t.
Proof. unfold lowerTable. simpl. rewrite !RegexpFacts.ToLower_idem. reflexivity. Qed.

(** X6. [Rules.ToLower] is idempotent and keeps the number of entries of
    each of the four lists. *)
Theorem Rules_ToLower_idempotent (r : option Rules) :
  ToLower (ToLower r) = ToLower r /\
  (forall r0 r1, r = Some r0 -> ToLower r = Some r1 ->
     length (DoTables r1) = length (DoTables r0) /\
     length (DoDBs r1) = length (DoDBs r0) /\
     length (IgnoreTables r1) = length (IgnoreTables r0) /\
     length (IgnoreDBs r1) = length (IgnoreDBs r0)).
Proof.
  split.
  - destruct r as [r|]; [| reflexivity]. simpl. f_equal.
    rewrite !map_map. f_equal; apply map_ext; intros x;
      (apply ToLower_lowerTable || apply RegexpFacts.ToLower_idem).
  - intros r0 r1 -> [= <-]. simpl. rewrite !length_map. auto.
Qed.

Lemma Rules_ToLower_idempotent_witness :
  exists r1, ToLower (Some exampleRules) = Some r1 /\
             length (DoDBs r1) = 2%nat.
Proof.
  eexists. split; [reflexivity|].
  exact (proj1 (proj2 (proj2 (Rules_ToLower_idempotent (Some exampleRules))
                         exampleRules _ eq_refl eq_refl))).
Defined.

Lemma New_Ok_iff (r : Rules) :
  (exists f, New (Some r) = Ok f) <->
  (forall p, In p (patternsOf r) -> p <> "" /\ Compile (sourceOf p) <> None).
Proof.
  split.
  - intros (f & Hf) p Hp.
    destruct (FilterFacts.New_Ok_at r f p Hf Hp) as (Hne & re & _ & Hc).
    split; [exact Hne | rewrite Hc; discriminate].
  - intros Hall. rewrite FilterFacts.New_forRange.
    apply FilterFacts.forRange_addOneRegex_total. exact Hall.
Qed.

Lemma New_Ok_lookup (r : Rules) (f : Filter) (p : string) :
  New (Some r) = Ok f ->
  patternMap f !! p = if In_dec string_dec p (patternsOf r)
                      then Compile (sourceOf p) else None.
Proof.
  intros Hf. destruct (FilterFacts.New_Ok r f Hf) as (_ & Hin & Hout).
  destruct (In_dec string_dec p (patternsOf r)) as [Hp | Hp].
  - destruct (Hin p Hp) as (_ & re & Hl & Hc). congruence.
  - apply Hout. exact Hp.
Qed.

(** X7. Whether [New] succeeds, and the pattern map of the filter it
    returns, depend only on which pattern strings occur in the rules, not
    on their order, their number of occurrences or the list they are in. *)
Theorem New_depends_on_pattern_set (r1 r2 : Rules) :
  (forall p, In p (patternsOf r1) <-> In p (patternsOf r2)) ->
  ((exists f, New (Some r1) = Ok f) <-> (exists f, New (Some r2) = Ok f)) /\
  (forall f1 f2, New (Some r1) = Ok f1 -> New (Some r2) = Ok f2 ->
                 patternMap f1 = patternMap f2).
Proof.
  intros Hset. split.
  - rewrite !New_Ok_iff. split; intros H p Hp; apply H, Hset, Hp.
  - intros f1 f2 H1 H2. apply map_eq. intros p.
    rewrite (New_Ok_lookup r1 f1 p H1), (New_Ok_lookup r2 f2 p H2).
    destruct (In_dec string_dec p (patternsOf r1)) as [Hp | Hp],
             (In_dec string_dec p (patternsOf r2)) as [Hq | Hq];
      try reflexivity.
    + exfalso. apply Hq, Hset, Hp.
    + exfalso. apply Hp, Hset, Hq.
Qed.

Lemma New_depends_on_pattern_set_witness :
  exists f1 f2,
    New (Some (mkRules [] ["shop"; "crm"; "shop"] [] [])) = Ok f1 /\
    New (Some (mkRules [mkTable "crm" "shop"] [] [] [])) = Ok f2 /\
    patternMap f1 = patternMap f2.
Proof.
  do 2 eexists. split; [vm_compute; reflexivity|]. split; [vm_compute; reflexivity|].
  apply (proj2 (New_depends_on_pattern_set
                  (mkRules [] ["shop"; "crm"; "shop"] [] [])
                  (mkRules [mkTable "crm" "shop"] [] [] [])
                  ltac:(intros p; vm_compute; tauto))).
  - vm_compute. reflexivity.
  - vm_compute. reflexivity.
Defined.

(** X8. A filter whose rules have four empty lists lets every table
    through. *)
Theorem ApplyOn_empty_rules (m : gmap string regex) (stbs : list Table) :
  ApplyOn (Some (mkFilter m (Some (mkRules [] [] [] [])))) stbs = stbs.
Proof.
  unfold ApplyOn. simpl rules.
  induction stbs as [|tb l IH]; [reflexivity|]. simpl.
  unfold filterOnTables. simpl.
  destruct (String.length (Name tb) =? 0)%nat; simpl; rewrite IH; reflexivity.
Qed.


(** ** Adding ignore rules *)

Lemma matchString_agree (r r' : Rules) (f f' : Filter) (p t : string) :
  New (Some r) = Ok f -> New (Some r') = Ok f' ->
  In p (patternsOf r) -> In p (patternsOf r') ->
  matchString f' p t = matchString f p t.
Proof.
  intros Hf Hf' Hp Hp'. unfold matchString.
  destruct (FilterFacts.New_Ok_at r f p Hf Hp) as (_ & re & Hl & Hc).
  destruct (FilterFacts.New_Ok_at r' f' p Hf' Hp') as (_ & re' & Hl' & Hc').
  rewrite Hl, Hl'. congruence.
Qed.

Lemma In_patternsOf (r : Rules) (p : string) :
  In p (patternsOf r) <->
  In p (DoDBs r) \/ In p (tablePatterns (DoTables r)) \/
  In p (IgnoreDBs r) \/ In p (tablePatterns (IgnoreTables r)).
Proof. unfold patternsOf. rewrite !in_app_iff. tauto. Qed.

Lemma In_tablePatterns (l : list Table) (t : Table) :
  In t l -> In (Schema t) (tablePatterns l) /\ In (Name t) (tablePatterns l).
Proof.
  intros Ht. unfold tablePatterns. rewrite !in_flat_map.
  split; exists t; simpl; auto.
Qed.

Lemma matchDB_ext (f f' : Filter) (l : list string) (a : string) :
  (forall b, In b l -> matchString f' b a = matchString f b a) ->
  matchDB f' l a = matchDB f l a.
Proof.
  induction l as [|b l IH]; intros H; [reflexivity|]. simpl.
  rewrite (H b (or_introl eq_refl)), IH; [reflexivity|].
  intros b' Hb'. apply H. right. exact Hb'.
Qed.

Lemma matchDB_mono (f f' : Filter) (l l' : list string) (a : string) :
  (forall b, In b l -> In b l' /\ matchString f' b a = matchString f b a) ->
  matchDB f l a = true -> matchDB f' l' a = true.
Proof.
  intros H Hm. apply FilterFacts.matchDB_true in Hm as (b & Hb & Hm).
  apply FilterFacts.matchDB_true. destruct (H b Hb) as (Hb' & E).
  exists b. split; [exact Hb' | congruence].
Qed.

Lemma matchTable_ext (f f' : Filter) (l : list Table) (tb : Table) :
  (forall p, In p l ->
     matchString f' (Schema p) (Schema tb) = matchString f (Schema p) (Schema tb) /\
     matchString f' (Name p) (Name tb) = matchString f (Name p) (Name tb)) ->
  matchTable f' l tb = matchTable f l tb.
Proof.
  induction l as [|p l IH]; intros H; [reflexivity|]. simpl.
  destruct (H p (or_introl eq_refl)) as (Es & En). rewrite Es, En, IH; [reflexivity|].
  intros p' Hp'. apply H. right. exact Hp'.
Qed.

Lemma matchTable_mono (f f' : Filter) (l l' : list Table) (tb : Table) :
  (forall p, In p l ->
     In p l' /\
     matchString f' (Schema p) (Schema tb) = matchString f (Schema p) (Schema tb) /\
     matchString f' (Name p) (Name tb) = matchString f (Name p) (Name tb)) ->
  matchTable f l tb = true -> matchTable f' l' tb = true.
Proof.
  intros H Hm. apply FilterFacts.matchTable_true in Hm as (p & Hp & Hs & Hn).
  apply FilterFacts.matchTable_true. destruct (H p Hp) as (Hp' & Es & En).
  exists p. split; [exact Hp'|]. split; congruence.
Qed.

Lemma nonempty_of_In {A} (x : A) (l : list A) : In x l -> (0 <? length l)%nat = true.
Proof. destruct l; [intros [] | reflexivity]. Qed.

(** X9. Adding ignore rules never lets more tables through: a table kept
    by the filter of rules with further ignored schemas or tables is kept
    by the filter of the rules without them. *)
Theorem more_ignores_keep_less (r r' : Rules) (f f' : Filter)
        (stbs : list Table) (tb : Table) :
  New (Some r) = Ok f -> New (Some r') = Ok f' -> addsIgnores r r' ->
  In tb (ApplyOn (Some f') stbs) -> In tb (ApplyOn (Some f) stbs).
Proof.
  intros Hf Hf' (Hdt & Hdd & Hit & Hid) Hin.
  destruct (FilterFacts.New_Ok r f Hf) as (Hr & _).
  destruct (FilterFacts.New_Ok r' f' Hf') as (Hr' & _).
  unfold ApplyOn in *. rewrite Hr. rewrite Hr' in Hin.
  apply FilterFacts.In_applyLoop in Hin as (Hl & Hs & Ht).
  apply FilterFacts.In_applyLoop. split; [exact Hl|].
  assert (Hagree : forall p t, In p (patternsOf r) -> In p (patternsOf r') ->
                               matchString f' p t = matchString f p t).
  { intros p t Hp Hp'. exact (matchString_agree r r' f f' p t Hf Hf' Hp Hp'). }
  assert (Hdo : matchDB f' (DoDBs r) (Schema tb) = matchDB f (DoDBs r) (Schema tb)).
  { apply matchDB_ext. intros b Hb.
    apply Hagree; apply In_patternsOf; left; [| rewrite Hdd]; exact Hb. }
  assert (Hig : matchDB f (IgnoreDBs r) (Schema tb) = true ->
                matchDB f' (IgnoreDBs r') (Schema tb) = true).
  { apply matchDB_mono. intros b Hb. split; [apply Hid; exact Hb|].
    apply Hagree; apply In_patternsOf; right; right; left; [| apply Hid]; exact Hb. }
  assert (Hdot : matchTable f' (DoTables r) tb = matchTable f (DoTables r) tb).
  { apply matchTable_ext. intros p Hp.
    destruct (In_tablePatterns _ p Hp) as (Hsp & Hnp).
    split; apply Hagree; apply In_patternsOf; right; left; rewrite ?Hdt; assumption. }
  assert (Higt : matchTable f (IgnoreTables r) tb = true ->
                 matchTable f' (IgnoreTables r') tb = true).
  { apply matchTable_mono. intros p Hp. split; [apply Hit; exact Hp|].
    destruct (In_tablePatterns _ p Hp) as (Hsp & Hnp).
    destruct (In_tablePatterns _ p (Hit p Hp)) as (Hsp' & Hnp').
    split; apply Hagree; apply In_patternsOf; right; right; right; assumption. }
  split.
  - revert Hs. unfold filterOnSchemas, findMatchedDoDBs, findMatchedIgnoreDBs.
    rewrite Hdd, Hdo.
    destruct (0 <? length (DoDBs r))%nat; [auto|].
    destruct (matchDB f (IgnoreDBs r) (Schema tb)) eqn:E.
    + pose proof (Hig eq_refl) as E'. rewrite E'.
      apply FilterFacts.matchDB_true in E' as (b & Hb & _).
      rewrite (nonempty_of_In b _ Hb). discriminate.
    + intros _. destruct (0 <? length (IgnoreDBs r))%nat; reflexivity.
  - revert Ht. unfold filterOnTables, findMatchedDoTables, findMatchedIgnoreTables.
    rewrite Hdt, Hdot.
    destruct (String.length (Name tb) =? 0)%nat; [auto|].
    destruct ((0 <? length (DoTables r))%nat && matchTable f (DoTables r) tb); [auto|].
    destruct (matchTable f (IgnoreTables r) tb) eqn:E.
    + pose proof (Higt eq_refl) as E'. rewrite E'.
      apply FilterFacts.matchTable_true in E' as (p & Hp & _).
      rewrite (nonempty_of_In p _ Hp). discriminate.
    + intros H. rewrite andb_false_r.
      destruct ((0 <? length (IgnoreTables r'))%nat && matchTable f' (IgnoreTables r') tb);
        [discriminate | exact H].
Qed.

Lemma more_ignores_keep_less_witness :
  exists f f',
    New (Some (mkRules [] ["shop"] [] [])) = Ok f /\
    New (Some (mkRules [] ["shop"] [mkTable "shop" "~^tmp_"] [])) = Ok f' /\
    In (mkTable "shop" "orders")
       (ApplyOn (Some f) [mkTable "shop" "tmp_1"; mkTable "shop" "orders"]).
Proof.
  do 2 eexists. split; [vm_compute; reflexivity|]. split; [vm_compute; reflexivity|].
  eapply (more_ignores_keep_less
            (mkRules [] ["shop"] [] [])
            (mkRules [] ["shop"] [mkTable "shop" "~^tmp_"] [])).
  - vm_compute. reflexivity.
  - vm_compute. reflexivity.
  - repeat split; simpl; tauto.
  - vm_compute. auto.
Defined.

End FilterMore.

(* ===================================================================== *)
(** * Further properties of the binlog event filter *)
(* ===================================================================== *)

Module SyncerMore.
Import Strings Regexp filter syncer SyncerSpec PatternSpec.

Section Gates.
Variable IsSystemSchema : string -> bool.
Variable StmtNode : Type.
Variable AstToDDLEvent : StmtNode -> bf.EventType.

Lemma filterEach_error call annotate (tables : list Table) (err : error) :
  snd (filterEach call annotate tables) = Some err ->
  fst (filterEach call annotate tables) = false.
Proof.
  induction tables as [|t l IH]; simpl; [discriminate|].
  destruct (call t) as [action [e|]]; [reflexivity|].
  destruct (bf.is_Ignore action); [discriminate | exact IH].
Qed.

Lemma filterEach_no_error call annotate (tables : list Table) :
  (forall t, In t tables -> snd (call t) = None) ->
  filterEach call annotate tables
  = (existsb (fun t => bf.is_Ignore (fst (call t))) tables, None).
Proof.
  induction tables as [|t l IH]; intros H; simpl; [reflexivity|].
  pose proof (H t (or_introl eq_refl)) as Ht.
  destruct (call t) as [action [e|]]; [discriminate|]. simpl.
  destruct (bf.is_Ignore action); [reflexivity|].
  apply IH. intros t' Ht'. apply H. right. exact Ht'.
Qed.

(** X10. None of the three filters returns an error together with the
    decision to skip: when the error is not nil, skip is false. *)
Theorem error_means_not_skipped (s : Syncer) (tables : list Table) (sql : string)
        (stmt : StmtNode) (schema table : string)
        (eventType : replication.EventType) (err : error) :
  (snd (skipQuery IsSystemSchema s tables sql) = Some err ->
   fst (skipQuery IsSystemSchema s tables sql) = false) /\
  (snd (skipDDLEvent IsSystemSchema StmtNode AstToDDLEvent s tables stmt) = Some err ->
   fst (skipDDLEvent IsSystemSchema StmtNode AstToDDLEvent s tables stmt) = false) /\
  (snd (skipDMLEvent IsSystemSchema s schema table eventType) = Some err ->
   fst (skipDMLEvent IsSystemSchema s schema table eventType) = false).
Proof.
  split; [| split].
  - unfold skipQuery.
    destruct (FindStringIndex_found _ _); [discriminate|].
    destruct (existsb _ _); [discriminate|].
    destruct (_ && _); [discriminate|].
    destruct (binlogFilter s) as [flt|]; [| discriminate].
    destruct (length tables =? 0)%nat.
    + destruct (flt _ _ _ _ _) as [action [e|]]; [reflexivity|].
      destruct (bf.is_Ignore action); [discriminate | apply filterEach_error].
    + apply filterEach_error.
  - unfold skipDDLEvent.
    destruct (existsb _ _); [discriminate|].
    destruct (_ && _); [discriminate|].
    destruct (binlogFilter s) as [flt|]; [| discriminate].
    destruct (length tables =? 0)%nat.
    + destruct (flt _ _ _ _ _) as [action [e|]]; [reflexivity|].
      destruct (bf.is_Ignore action); [discriminate | apply filterEach_error].
    + apply filterEach_error.
  - unfold skipDMLEvent.
    destruct (IsSystemSchema schema); [discriminate|].
    destruct (length _ =? 0)%nat; [discriminate|].
    destruct (binlogFilter s) as [flt|]; [| discriminate].
    destruct (rowEventType eventType) as [et|]; [| reflexivity].
    destruct (flt _ _ _ _ _) as [action [e|]]; [reflexivity | discriminate].
Qed.

(** X11. A statement or row event that touches a system schema is skipped
    without error by all three filters, whatever the rules and the binlog
    filter say. *)
Theorem system_schema_skipped (s : Syncer) (tables : list Table) (sql : string)
        (stmt : StmtNode) (schema table : string)
        (eventType : replication.EventType) :
  ((exists t, In t tables /\ IsSystemSchema (Schema t) = true) ->
   skipQuery IsSystemSchema s tables sql = (true, None) /\
   skipDDLEvent IsSystemSchema StmtNode AstToDDLEvent s tables stmt = (true, None)) /\
  (IsSystemSchema schema = true ->
   skipDMLEvent IsSystemSchema s schema table eventType = (true, None)).
Proof.
  split.
  - intros Hsys.
    assert (E : existsb (fun t => IsSystemSchema (Schema t)) tables = true)
      by (apply existsb_exists; exact Hsys).
    unfold skipQuery, skipDDLEvent. rewrite E.
    destruct (FindStringIndex_found _ _); split; reflexivity.
  - intros Hsys. unfold skipDMLEvent. rewrite Hsys. reflexivity.
Qed.

(** X12. When the table list is not empty and the table filter keeps none
    of its tables, the statement is skipped without error and the binlog
    filter is not asked; a row event on a table the table filter rejects
    is skipped whatever its subtype is. *)
Theorem all_tables_rejected_skipped (s : Syncer) (tables : list Table) (sql : string)
        (stmt : StmtNode) (schema table : string)
        (eventType : replication.EventType) :
  (tables <> [] -> ApplyOn (bwList s) tables = [] ->
   skipQuery IsSystemSchema s tables sql = (true, None) /\
   skipDDLEvent IsSystemSchema StmtNode AstToDDLEvent s tables stmt = (true, None)) /\
  (ApplyOn (bwList s) [mkTable (Strings.ToLower schema) (Strings.ToLower table)] = [] ->
   skipDMLEvent IsSystemSchema s schema table eventType = (true, None)).
Proof.
  split.
  - intros Hne He. unfold skipQuery, skipDDLEvent. rewrite He.
    apply FilterFacts.nonempty_ltb in Hne. rewrite Hne. simpl.
    destruct (FindStringIndex_found _ _), (existsb _ _); split; reflexivity.
  - intros He. unfold skipDMLEvent. rewrite He.
    destruct (IsSystemSchema schema); reflexivity.
Qed.

(** X13. Without a binlog filter, [skipQuery] never returns an error, and
    it skips exactly the statements that the built-in patterns match, that
    touch a system schema, or none of whose tables the table filter
    keeps. *)
Theorem skipQuery_without_binlog_filter (s : Syncer) (tables : list Table)
        (sql : string) :
  binlogFilter s = None ->
  skipQuery IsSystemSchema s tables sql =
  (FindStringIndex_found builtInSkipDDLPatterns sql
   || existsb (fun t => IsSystemSchema (Schema t)) tables
   || ((0 <? length tables)%nat && (length (ApplyOn (bwList s) tables) =? 0)%nat),
   None).
Proof.
  intros Hb. unfold skipQuery. rewrite Hb.
  destruct (FindStringIndex_found _ _); [reflexivity|].
  destruct (existsb _ _); [reflexivity|].
  destruct (_ && _); reflexivity.
Qed.

(** X14. Past the gates, the binlog filter is asked about every table of
    the statement, also about those the table filter rejected: when it
    returns no error, the statement is skipped if and only if the binlog
    filter ignores one of the tables of the list. *)
Theorem binlog_filter_sees_every_table (s : Syncer) (flt : BinlogEvent)
        (tables : list Table) (sql : string) :
  binlogFilter s = Some flt ->
  FindStringIndex_found builtInSkipDDLPatterns sql = false ->
  (forall t, In t tables -> IsSystemSchema (Schema t) = false) ->
  ApplyOn (bwList s) tables <> [] ->
  (forall t, In t tables ->
     snd (flt (Schema t) (Name t) bf.NullEvent bf.NullEvent sql) = None) ->
  skipQuery IsSystemSchema s tables sql =
  (existsb (fun t => bf.is_Ignore
                       (fst (flt (Schema t) (Name t) bf.NullEvent bf.NullEvent sql)))
           tables, None).
Proof.
  intros Hb Hf Hsys Hkeep Hok. unfold skipQuery. rewrite Hb, Hf.
  assert (E : existsb (fun t => IsSystemSchema (Schema t)) tables = false).
  { apply not_true_is_false. intros E. apply existsb_exists in E as (t & Ht & Es).
    rewrite (Hsys t Ht) in Es. discriminate. }
  rewrite E.
  assert (El : (length (ApplyOn (bwList s) tables) =? 0)%nat = false).
  { destruct (ApplyOn (bwList s) tables); [contradiction | reflexivity]. }
  rewrite El, andb_false_r.
  assert (Et : (length tables =? 0)%nat = false).
  { destruct tables; [| reflexivity]. exfalso. apply Hkeep.
    destruct (bwList s) as [f|]; [| reflexivity]. unfold ApplyOn.
    destruct (rules f); reflexivity. }
  rewrite Et.
  exact (filterEach_no_error _ _ tables Hok).
Qed.
End Gates.

Lemma binlog_filter_sees_every_table_witness :
  let flt : BinlogEvent :=
    fun schema _ _ _ _ =>
      (if String.eqb schema "crm" then bf.Ignore else bf.Do, None) in
  skipQuery (fun _ => false) (mkSyncer (Some FilterSpec.exampleFilter) (Some flt))
            [mkTable "shop" "orders_1"; mkTable "crm" "leads"]
            "RENAME TABLE shop.orders_1 TO crm.leads" = (true, None) /\
  ApplyOn (Some FilterSpec.exampleFilter)
          [mkTable "shop" "orders_1"; mkTable "crm" "leads"]
  = [mkTable "shop" "orders_1"].
Proof.
  intros flt. split; [| vm_compute; reflexivity].
  rewrite (binlog_filter_sees_every_table (fun _ => false)
             (mkSyncer (Some FilterSpec.exampleFilter) (Some flt)) flt
             [mkTable "shop" "orders_1"; mkTable "crm" "leads"]
             "RENAME TABLE shop.orders_1 TO crm.leads").
  - reflexivity.
  - reflexivity.
  - vm_compute. reflexivity.
  - reflexivity.
  - vm_compute. discriminate.
  - reflexivity.
Defined.


Lemma error_means_not_skipped_witness :
  let flt : BinlogEvent := fun _ _ _ _ _ => (bf.Do, None) in
  fst (skipDMLEvent (fun _ => false)
         (mkSyncer (Some FilterSpec.exampleFilter) (Some flt))
         "shop" "orders_1" replication.TABLE_MAP_EVENT) = false.
Proof.
  intros flt.
  eapply (proj2 (proj2 (error_means_not_skipped (fun _ => false) unit
                          (fun _ => bf.NullEvent)
                          (mkSyncer (Some FilterSpec.exampleFilter) (Some flt))
                          [] "" tt "shop" "orders_1" replication.TABLE_MAP_EVENT _))).
  vm_compute. reflexivity.
Defined.

Lemma system_schema_skipped_witness :
  let flt : BinlogEvent := fun _ _ _ _ _ => (bf.Do, Some (FilterError 1)) in
  skipQuery (String.eqb "mysql") (mkSyncer None (Some flt))
            [mkTable "shop" "t"; mkTable "mysql" "user"]
            "UPDATE shop.t, mysql.user SET a = 1" = (true, None).
Proof.
  intros flt.
  apply (proj1 (system_schema_skipped (String.eqb "mysql") unit (fun _ => bf.NullEvent)
                  (mkSyncer None (Some flt))
                  [mkTable "shop" "t"; mkTable "mysql" "user"]
                  "UPDATE shop.t, mysql.user SET a = 1" tt "" "" 0%N)).
  exists (mkTable "mysql" "user"). split; [right; left; reflexivity | reflexivity].
Defined.

Lemma all_tables_rejected_skipped_witness :
  let flt : BinlogEvent := fun _ _ _ _ _ => (bf.Do, Some (FilterError 1)) in
  skipDMLEvent (fun _ => false) (mkSyncer (Some FilterSpec.exampleFilter) (Some flt))
               "CRM" "Leads" 0%N = (true, None).
Proof.
  intros flt.
  apply (proj2 (all_tables_rejected_skipped (fun _ => false) unit (fun _ => bf.NullEvent)
                  (mkSyncer (Some FilterSpec.exampleFilter) (Some flt))
                  [] "" tt "CRM" "Leads" 0%N)).
  vm_compute. reflexivity.
Defined.

Lemma skipQuery_without_binlog_filter_witness :
  skipQuery (fun _ => false) (mkSyncer (Some FilterSpec.exampleFilter) None)
            [mkTable "shop" "orders_1"] "ALTER TABLE shop.orders_1 ADD c INT"
  = (false, None).
Proof.
  rewrite (skipQuery_without_binlog_filter (fun _ => false)
             (mkSyncer (Some FilterSpec.exampleFilter) None)
             [mkTable "shop" "orders_1"] "ALTER TABLE shop.orders_1 ADD c INT" eq_refl).
  vm_compute. reflexivity.
Defined.

Lemma builtInSkipDDLPatterns_anchored : anchored builtInSkipDDLPatterns = true.
Proof. vm_compute. reflexivity. Qed.

Lemma space_char (c : ascii) :
  in_class ClassSpace c = true ->
  c = ascii_of_N 9 \/ c = ascii_of_N 10 \/ c = ascii_of_N 12 \/
  c = ascii_of_N 13 \/ c = ascii_of_N 32.
Proof.
  unfold in_class. rewrite !orb_true_iff, !N.eqb_eq.
  rewrite <- (ascii_N_embedding c) at 6 7 8 9 10.
  intros [[[[-> | ->] | ->] | ->] | ->]; tauto.
Qed.

(** X15. The built-in skip patterns only match at the very start of the
    statement: they find nothing in the empty statement nor in a statement
    that begins with white space, whatever follows. *)
Theorem builtin_patterns_match_at_start_only :
  (forall sql, FindStringIndex_found builtInSkipDDLPatterns sql
               = match_prefix true builtInSkipDDLPatterns sql) /\
  FindStringIndex_found builtInSkipDDLPatterns "" = false /\
  (forall c rest, in_class ClassSpace c = true ->
     FindStringIndex_found builtInSkipDDLPatterns (String c rest) = false).
Proof.
  assert (Hstart : forall sql, FindStringIndex_found builtInSkipDDLPatterns sql
                               = match_prefix true builtInSkipDDLPatterns sql).
  { intros sql. unfold FindStringIndex_found.
    apply PatternFacts.search_anchored, builtInSkipDDLPatterns_anchored. }
  split; [exact Hstart|]. split; [vm_compute; reflexivity|].
  intros c rest Hc. rewrite Hstart. cbn [match_prefix].
  assert (Hd : deriv true c builtInSkipDDLPatterns = OpNoMatch).
  { destruct (space_char c Hc) as [-> | [-> | [-> | [-> | ->]]]];
      vm_compute; reflexivity. }
  rewrite Hd, RegexpFacts.match_prefix_NoMatch.
  vm_compute. reflexivity.
Qed.

Lemma builtin_patterns_match_at_start_only_witness :
  FindStringIndex_found builtInSkipDDLPatterns " FLUSH LOGS" = false.
Proof.
  apply (proj2 (proj2 builtin_patterns_match_at_start_only) " "%char "FLUSH LOGS"%string).
  reflexivity.
Defined.

End SyncerMore.

(* ===================================================================== *)
(** * Further properties of the pre-check unit *)
(* ===================================================================== *)

Module CheckerMore.
Import checker CheckerSpec CheckerMoreSpec.

Lemma runCall_keeps w m c :
  instances (fst (runCall w m c)) = instances c /\
  checkList (fst (runCall w m c)) = checkList c /\
  (detail c <> None -> detail (fst (runCall w m c)) <> None).
Proof.
  destruct m; simpl; unfold Process, Close, Pause, Resume, Process;
    destruct (closed c); simpl; repeat split; auto; discriminate.
Qed.

Lemma runCalls_keeps steps : forall c,
  instances (fst (runCalls steps c)) = instances c /\
  checkList (fst (runCalls steps c)) = checkList c /\
  (detail c <> None -> detail (fst (runCalls steps c)) <> None).
Proof.
  induction steps as [|[w m] rest IH]; intros c; [simpl; auto|].
  simpl. destruct (runCall w m c) as [c1 e1] eqn:E1.
  destruct (runCalls rest c1) as [c2 e2] eqn:E2. simpl.
  destruct (runCall_keeps w m c) as (Hi & Hl & Hd). rewrite E1 in Hi, Hl, Hd. simpl in *.
  destruct (IH c1) as (Hi' & Hl' & Hd'). rewrite E2 in Hi', Hl', Hd'. simpl in *.
  repeat split; [congruence | congruence | auto].
Qed.

(** X16. Once one [Process] has completed, [Status] does not panic any
    more, whatever methods are called in between; right after a [Process]
    it reports the passed flag of the summary that [Process] got from the
    checks. *)
Theorem Status_after_first_Process (w0 w' : world) (c : Checker)
        (steps : list (world * call)) :
  (exists st, Status w' (fst (runCalls steps (fst (Process w0 c)))) = Ok st) /\
  (exists st, Status w' (fst (Process w0 c)) = Ok st /\
     pb.cs_Passed st = check.Passed (check.Summary_ (Do w0 (checkList c)))).
Proof.
  split.
  - destruct (runCalls_keeps steps (fst (Process w0 c))) as (_ & _ & Hd).
    unfold Status. destruct (detail (fst (runCalls steps _))).
    + eexists. reflexivity.
    + exfalso. apply Hd; [discriminate | reflexivity].
  - eexists. split; reflexivity.
Qed.

Lemma int32_range (x : Z) : (- 2 ^ 31 <= int32 x < 2 ^ 31)%Z.
Proof. unfold int32. pose proof (Z.mod_pos_bound (x + 2 ^ 31) (2 ^ 32)). lia. Qed.

Lemma int32_exact (x : Z) : (- 2 ^ 31 <= x < 2 ^ 31)%Z -> int32 x = x.
Proof. intros H. unfold int32. rewrite Z.mod_small; lia. Qed.

(** X17. The counters [Status] reports are the counters of the stored
    summary cut to 32 bits: they lie in the range of an int32, and they are
    the stored counters themselves when those fit in 32 bits. *)
Theorem Status_counters (w : world) (c : Checker) (res : check.Results)
        (st : pb.CheckStatus) :
  detail c = Some res -> Status w c = Ok st ->
  ((- 2 ^ 31 <= pb.cs_Total st < 2 ^ 31) /\
   (- 2 ^ 31 <= pb.cs_Failed st < 2 ^ 31) /\
   (- 2 ^ 31 <= pb.cs_Successful st < 2 ^ 31) /\
   (- 2 ^ 31 <= pb.cs_Warning st < 2 ^ 31))%Z /\
  ((- 2 ^ 31 <= check.Total (check.Summary_ res) < 2 ^ 31)%Z ->
   pb.cs_Total st = check.Total (check.Summary_ res)) /\
  ((- 2 ^ 31 <= check.Failed (check.Summary_ res) < 2 ^ 31)%Z ->
   pb.cs_Failed st = check.Failed (check.Summary_ res)) /\
  ((- 2 ^ 31 <= check.Successful (check.Summary_ res) < 2 ^ 31)%Z ->
   pb.cs_Successful st = check.Successful (check.Summary_ res)) /\
  ((- 2 ^ 31 <= check.Warning (check.Summary_ res) < 2 ^ 31)%Z ->
   pb.cs_Warning st = check.Warning (check.Summary_ res)).
Proof.
  intros Hd. unfold Status. rewrite Hd. intros [= <-]. simpl.
  repeat split; try apply int32_range; apply int32_exact.
Qed.

Lemma Status_counters_witness :
  exists st, Status exampleWorld (fst (Process exampleWorld exampleChecker)) = Ok st /\
             pb.cs_Total st = 3%Z /\ pb.cs_Failed st = 1%Z.
Proof.
  eexists. split; [reflexivity|].
  destruct (Status_counters exampleWorld (fst (Process exampleWorld exampleChecker))
              _ _ eq_refl eq_refl) as (_ & Ht & Hf & _).
  split; [apply Ht | apply Hf]; simpl; lia.
Defined.

(** X18. The closed flag stops [Resume] and not [Process]: on a checker
    that has been closed [Resume] sends no result and leaves the checker
    as it is, while [Process] still runs the checks and sends one result;
    on a checker that is not closed [Resume] is [Process]. *)
Theorem closed_flag_gates_Resume_only (w1 w : world) (c : Checker) :
  sent (snd (Resume w (fst (Close w1 c)))) = [] /\
  fst (Resume w (fst (Close w1 c))) = fst (Close w1 c) /\
  length (sent (snd (Process w (fst (Close w1 c))))) = 1%nat /\
  (closed c = false -> Resume w c = Process w c).
Proof.
  pose proof (CheckerFacts.Close_closed w1 c) as Hc.
  unfold Resume. rewrite Hc. repeat split.
  intros ->. reflexivity.
Qed.

Lemma closed_flag_gates_Resume_only_witness :
  Resume exampleWorld exampleChecker = Process exampleWorld exampleChecker.
Proof.
  apply (proj2 (proj2 (proj2 (closed_flag_gates_Resume_only
                                exampleWorld exampleWorld exampleChecker)))).
  reflexivity.
Defined.

Lemma closedDBs_runCall_not_Close w m c :
  isClose m = false -> closedDBs (snd (runCall w m c)) = [] /\
                       closed (fst (runCall w m c)) = closed c.
Proof.
  destruct m; try discriminate; intros _; simpl;
    unfold Process, Pause, Resume, Process; destruct (closed c) eqn:E; simpl; auto.
Qed.

Lemma closedDBs_runCalls_closed steps : forall c,
  closed c = true -> closedDBs (snd (runCalls steps c)) = [].
Proof.
  induction steps as [|[w m] rest IH]; intros c Hc; [reflexivity|]. simpl.
  destruct (runCall w m c) as [c1 e1] eqn:E1.
  destruct (runCalls rest c1) as [c2 e2] eqn:E2. simpl.
  rewrite CheckerFacts.closedDBs_app.
  assert (H1 : closedDBs e1 = [] /\ closed c1 = true).
  { destruct (isClose m) eqn:Em.
    - destruct m; try discriminate. simpl in E1.
      rewrite (CheckerFacts.Close_when_closed w c Hc) in E1.
      injection E1 as <- <-. auto.
    - destruct (closedDBs_runCall_not_Close w m c Em) as (Ha & Hb).
      rewrite E1 in Ha, Hb. simpl in *. split; congruence. }
  destruct H1 as (-> & Hc1). specialize (IH c1 Hc1). rewrite E2 in IH. exact IH.
Qed.

(** X19. Over any run of method calls on a checker that is not closed, the
    connections are closed by the first [Close] of the run and by no other
    call: the connections closed are the owned connections, each once, when
    the run has a [Close], and none when it has not. *)
Theorem connections_closed_once (steps : list (world * call)) (c : Checker) :
  closed c = false ->
  closedDBs (snd (runCalls steps c))
  = if existsb (fun s => isClose (snd s)) steps then ownedDBs c else [].
Proof.
  revert c. induction steps as [|[w m] rest IH]; intros c Hc; [reflexivity|].
  simpl. destruct (runCall w m c) as [c1 e1] eqn:E1.
  destruct (runCalls rest c1) as [c2 e2] eqn:E2. simpl.
  rewrite CheckerFacts.closedDBs_app.
  destruct (isClose m) eqn:Em.
  - destruct m; try discriminate. simpl in E1.
    assert (He1 : closedDBs e1 = ownedDBs c).
    { unfold Close in E1. rewrite Hc in E1. injection E1 as <- <-.
      apply CheckerFacts.closedDBs_instances. }
    assert (Hc1 : closed c1 = true).
    { pose proof (CheckerFacts.Close_closed w c) as H. rewrite E1 in H. exact H. }
    pose proof (closedDBs_runCalls_closed rest c1 Hc1) as H2. rewrite E2 in H2.
    simpl in H2. rewrite He1, H2. apply app_nil_r.
  - destruct (closedDBs_runCall_not_Close w m c Em) as (Ha & Hb).
    rewrite E1 in Ha, Hb. simpl in Ha, Hb. rewrite Ha. simpl.
    assert (Hc1 : closed c1 = false) by congruence.
    specialize (IH c1 Hc1). rewrite E2 in IH. simpl in IH. rewrite IH.
    assert (Ho : ownedDBs c1 = ownedDBs c).
    { unfold ownedDBs. destruct (runCall_keeps w m c) as (Hi & _).
      rewrite E1 in Hi. simpl in Hi. rewrite Hi. reflexivity. }
    rewrite Ho. reflexivity.
Qed.

Lemma connections_closed_once_witness :
  closedDBs (snd (runCalls [(exampleWorld, CallProcess); (exampleWorld, CallClose);
                            (exampleWorld, CallResume); (exampleWorld, CallClose);
                            (exampleWorld, CallProcess)] exampleChecker))
  = [7; 8; 9].
Proof.
  rewrite (connections_closed_once _ exampleChecker eq_refl). reflexivity.
Defined.

End CheckerMore.

(* ===================================================================== *)
(** * Properties of Init *)
(* ===================================================================== *)

Module InitFacts.
Import checker CheckerSpec checkerInit InitSpec.

Lemma ownedDBs_ownedBy (c : Checker) : ownedDBs c = ownedBy (instances c).
Proof. reflexivity. Qed.

Lemma ownedBy_app (l1 l2 : list mysqlInstance) :
  ownedBy (l1 ++ l2) = ownedBy l1 ++ ownedBy l2.
Proof. unfold ownedBy. apply flat_map_app. Qed.

Lemma ownedBy_holdsNone (l : list mysqlInstance) : holdsNone l -> ownedBy l = [].
Proof.
  induction l as [|i l IH]; intros H; [reflexivity|]. simpl.
  destruct (H i (or_introl eq_refl)) as (-> & ->). simpl.
  apply IH. intros j Hj. apply H. right. exact Hj.
Qed.

Lemma initInstance_owned iw n st i st' e :
  sourceDB i = None -> targetDB i = None ->
  initInstance iw n st i = Ok (st', e) ->
  ownedBy (visited st) = opened (trace st) ->
  ownedBy (visited st') = opened (trace st').
Proof.
  intros Hs Ht Hrun Hinv. unfold initInstance in Hrun.
  destruct (filter.New _) as [bw|k]; cbn [rbind] in Hrun; [| discriminate].
  destruct (NewTableRouter iw (cfg i)) as [r [err|]].
  { injection Hrun as <- <-. simpl. rewrite ownedBy_app, Hinv. simpl.
    rewrite Hs, Ht. reflexivity. }
  destruct (OpenDB iw (2 * n) (sourceInfoOf iw (cfg i))) as [sdb [err|]].
  { injection Hrun as <- <-. simpl. rewrite ownedBy_app, Hinv. simpl.
    rewrite Ht. simpl. rewrite !app_nil_r. reflexivity. }
  destruct (OpenDB iw (2 * n + 1) (targetInfoOf iw (cfg i))) as [tdb [err|]].
  { injection Hrun as <- <-. simpl. rewrite ownedBy_app, Hinv. simpl.
    rewrite !app_nil_r. reflexivity. }
  destruct (FetchTargetDoTables iw sdb bw r) as [mapping [err|]].
  { injection Hrun as <- <-. simpl. rewrite ownedBy_app, Hinv. simpl.
    rewrite !app_nil_r. reflexivity. }
  injection Hrun as <- <-. simpl. rewrite ownedBy_app, Hinv. simpl.
  rewrite !app_nil_r. reflexivity.
Qed.

Lemma initLoop_owned iw rest : forall n st st' rest' e,
  holdsNone rest ->
  initLoop iw n rest st = Ok (st', rest', e) ->
  ownedBy (visited st) = opened (trace st) ->
  ownedBy (visited st') = opened (trace st') /\ holdsNone rest'.
Proof.
  induction rest as [|i rest IH]; intros n st st' rest' e Hnone Hrun Hinv; simpl in Hrun.
  - injection Hrun as <- <- <-. split; [exact Hinv | intros j []].
  - destruct (initInstance iw n st i) as [[st1 e1]|k] eqn:E1; simpl in Hrun; [| discriminate].
    destruct (Hnone i (or_introl eq_refl)) as (Hs & Ht).
    pose proof (initInstance_owned iw n st i st1 e1 Hs Ht E1 Hinv) as Hinv1.
    assert (Hrest : holdsNone rest) by (intros j Hj; apply Hnone; right; exact Hj).
    destruct e1 as [err|].
    + injection Hrun as <- <- <-. split; assumption.
    + exact (IH (S n) st1 st' rest' e Hrest Hrun Hinv1).
Qed.

(** X20. Whether [Init] returns an error or not, the checker it leaves
    holds exactly the connections that [OpenDB] returned during [Init],
    when it held none before; so a [Close] that follows closes all the
    connections that were opened, and only them. *)
Theorem Init_owns_what_it_opened (iw : initWorld) (w : world) (c c' : Checker)
        (err : option nat) (tr : initTrace) :
  holdsNone (instances c) -> Init iw c = Ok (c', err, tr) ->
  ownedDBs c' = opened tr /\
  (closed c = false -> closedDBs (snd (Close w c')) = opened tr).
Proof.
  intros Hnone Hinit. unfold Init in Hinit.
  destruct (initLoop iw 0 (instances c) _) as [[[st rest] e]|k] eqn:El;
    simpl in Hinit; [| discriminate].
  destruct (initLoop_owned iw (instances c) _ _ _ _ _ Hnone El eq_refl) as (Hinv & Hrest).
  assert (Hown : ownedBy (visited st ++ rest) = opened (trace st)).
  { rewrite ownedBy_app, Hinv, (ownedBy_holdsNone rest Hrest). apply app_nil_r. }
  assert (Hc' : ownedDBs c' = opened tr /\ closed c' = closed c).
  { destruct e as [e0|]; injection Hinit as <- <- <-; split; (exact Hown || reflexivity). }
  destruct Hc' as (Ho & Hcl). split; [exact Ho|].
  intros Hopen. unfold Close. rewrite Hcl, Hopen. simpl.
  rewrite CheckerFacts.closedDBs_instances. exact Ho.
Qed.


(** ** The sharding counter *)

Lemma wrapInt_small (x : Z) : (- 2 ^ 63 <= x < 2 ^ 63)%Z -> wrapInt x = x.
Proof. intros H. unfold wrapInt. rewrite Z.mod_small; lia. Qed.

Lemma tracks_ext sh cnt (f g : string -> Z) :
  (forall n, f n = g n) -> tracks sh cnt f -> tracks sh cnt g.
Proof. intros E H n. rewrite <- (E n). apply H. Qed.

Lemma addTable_tracks iid name a t (f : string -> Z) :
  tracks (sharding a) (shardingCounter a) f ->
  (f name + 1 < 2 ^ 63)%Z ->
  tracks (sharding (addTable iid name a t)) (shardingCounter (addTable iid name a t))
         (fun n => if String.eqb name n then f n + 1 else f n)%Z.
Proof.
  intros H Hb n. unfold addTable. simpl.
  destruct (String.eqb_spec name n) as [<- | Hne].
  - destruct (H name) as (H0 & Hc & Hs).
    rewrite !lookup_insert_eq. simpl. rewrite Hc.
    rewrite wrapInt_small by lia.
    split; [lia|]. split; [reflexivity|]. split; [lia | eauto].
  - rewrite !lookup_insert_ne by exact Hne. apply H.
Qed.

Lemma fold_addTable_tracks iid name (tables : list filter.Table) :
  forall a (f : string -> Z),
    tracks (sharding a) (shardingCounter a) f ->
    (f name + Z.of_nat (length tables) < 2 ^ 63)%Z ->
    tracks (sharding (fold_left (addTable iid name) tables a))
           (shardingCounter (fold_left (addTable iid name) tables a))
           (fun n => f n + if String.eqb name n then Z.of_nat (length tables) else 0)%Z.
Proof.
  induction tables as [|t tables IH]; intros a f H Hb.
  - simpl. apply (tracks_ext _ _ f); [| exact H].
    intros n. destruct (String.eqb name n); lia.
  - cbn [fold_left]. cbn [length] in Hb.
    assert (H1 := addTable_tracks iid name a t f H ltac:(lia)).
    eapply tracks_ext; [| apply (IH _ _ H1)].
    + intros n. cbn [length]. simpl. destruct (String.eqb name n); lia.
    + simpl. rewrite String.eqb_refl. lia.
Qed.

Lemma routedIn_nonneg name mapping : (0 <= routedIn name mapping)%Z.
Proof.
  induction mapping as [|e m IH]; simpl; [lia|].
  destruct (String.eqb (fst e) name); lia.
Qed.

Lemma mergeMapping_tracks iid (mapping : list (string * list filter.Table)) :
  forall a (f : string -> Z),
    tracks (sharding a) (shardingCounter a) f ->
    (forall n, f n + routedIn n mapping < 2 ^ 63)%Z ->
    tracks (sharding (mergeMapping iid mapping a))
           (shardingCounter (mergeMapping iid mapping a))
           (fun n => f n + routedIn n mapping)%Z.
Proof.
  unfold mergeMapping.
  induction mapping as [|e mapping IH]; intros a f H Hb.
  - simpl. apply (tracks_ext _ _ f); [intros n; lia | exact H].
  - cbn [fold_left].
    assert (Hbe : (f (fst e) + Z.of_nat (length (snd e)) < 2 ^ 63)%Z).
    { specialize (Hb (fst e)). simpl in Hb. rewrite String.eqb_refl in Hb.
      pose proof (routedIn_nonneg (fst e) mapping). lia. }
    assert (H1 := fold_addTable_tracks iid (fst e) (snd e) a f H Hbe).
    eapply tracks_ext; [| apply (IH _ _ H1)].
    + intros n. simpl. destruct (String.eqb (fst e) n); lia.
    + intros n. specialize (Hb n). simpl in Hb.
      destruct (String.eqb (fst e) n); lia.
Qed.

Lemma routed_app name (a b : list (list (string * list filter.Table))) :
  routed name (a ++ b) = (routed name a + routed name b)%Z.
Proof. induction a as [|m a IH]; simpl; [reflexivity | rewrite IH; lia]. Qed.

Lemma routed_nonneg name ms : (0 <= routed name ms)%Z.
Proof.
  induction ms as [|m ms IH]; simpl; [lia|].
  pose proof (routedIn_nonneg name m). lia.
Qed.

(** What one turn of the loop over the instances does to the state. *)
Lemma initInstance_cases iw n st i st' e :
  initInstance iw n st i = Ok (st', e) ->
  (e <> None /\ shardingOf st' = shardingOf st /\ counterOf st' = counterOf st /\
   dbs st' = dbs st /\ checks st' = checks st /\
   fetched (trace st') = fetched (trace st)) \/
  (e = None /\ exists mapping m five,
     m = mergeMapping (instanceIDOf iw (cfg i)) mapping
           (mkMerged ∅ (shardingOf st) (counterOf st)) /\
     shardingOf st' = sharding m /\ counterOf st' = shardingCounter m /\
     checks st' = checks st ++ five /\ length five = 5%nat /\
     fetched (trace st') = fetched (trace st) ++ [mapping]).
Proof.
  intros Hrun. unfold initInstance in Hrun.
  destruct (filter.New _) as [bw|k]; cbn [rbind] in Hrun; [| discriminate].
  destruct (NewTableRouter iw (cfg i)) as [r [err|]].
  { injection Hrun as <- <-. left. repeat split; discriminate. }
  destruct (OpenDB iw (2 * n) (sourceInfoOf iw (cfg i))) as [sdb [err|]].
  { injection Hrun as <- <-. left. repeat split; discriminate. }
  destruct (OpenDB iw (2 * n + 1) (targetInfoOf iw (cfg i))) as [tdb [err|]].
  { injection Hrun as <- <-. left. repeat split; discriminate. }
  destruct (FetchTargetDoTables iw sdb bw r) as [mapping [err|]].
  { injection Hrun as <- <-. left. repeat split; discriminate. }
  injection Hrun as <- <-. right. split; [reflexivity|].
  do 3 eexists. repeat split.
Qed.

Lemma initLoop_fetched iw rest : forall n st st' rest' e,
  initLoop iw n rest st = Ok (st', rest', e) ->
  exists more, fetched (trace st') = fetched (trace st) ++ more.
Proof.
  induction rest as [|i rest IH]; intros n st st' rest' e Hrun; simpl in Hrun.
  - injection Hrun as <- <- <-. exists []. symmetry. apply app_nil_r.
  - destruct (initInstance iw n st i) as [[st1 e1]|k] eqn:E1;
      cbn [rbind] in Hrun; [| discriminate].
    assert (exists m1, fetched (trace st1) = fetched (trace st) ++ m1) as (m1 & H1).
    { destruct (initInstance_cases iw n st i st1 e1 E1)
        as [(_ & _ & _ & _ & _ & Hf) | (_ & mapping & m & five & _ & _ & _ & _ & _ & Hf)].
      - exists []. rewrite Hf. symmetry. apply app_nil_r.
      - exists [mapping]. exact Hf. }
    destruct e1 as [err|].
    + injection Hrun as <- <- <-. exists m1. exact H1.
    + destruct (IH _ _ _ _ _ Hrun) as (m2 & H2). exists (m1 ++ m2).
      rewrite H2, H1, app_assoc. reflexivity.
Qed.

Lemma initLoop_tracks iw rest : forall n st st' rest' e,
  initLoop iw n rest st = Ok (st', rest', e) ->
  (forall name, routed name (fetched (trace st')) < 2 ^ 63)%Z ->
  tracks (shardingOf st) (counterOf st) (fun name => routed name (fetched (trace st))) ->
  tracks (shardingOf st') (counterOf st') (fun name => routed name (fetched (trace st'))).
Proof.
  induction rest as [|i rest IH]; intros n st st' rest' e Hrun Hb H; simpl in Hrun.
  - injection Hrun as <- <- <-. exact H.
  - destruct (initInstance iw n st i) as [[st1 e1]|k] eqn:E1;
      cbn [rbind] in Hrun; [| discriminate].
    assert (Hb1 : (forall name, routed name (fetched (trace st1)) < 2 ^ 63)%Z).
    { destruct e1 as [err|].
      - injection Hrun as <- <- <-. exact Hb.
      - destruct (initLoop_fetched _ _ _ _ _ _ _ Hrun) as (more & Hm).
        intros name. specialize (Hb name). rewrite Hm, routed_app in Hb.
        pose proof (routed_nonneg name more). lia. }
    assert (H1 : tracks (shardingOf st1) (counterOf st1)
                        (fun name => routed name (fetched (trace st1)))).
    { destruct (initInstance_cases iw n st i st1 e1 E1)
        as [(_ & -> & -> & _ & _ & ->) | (_ & mapping & m & five & Hm & -> & -> & _ & _ & Hf)];
        [exact H|].
      subst m.
      eapply tracks_ext;
        [| apply (mergeMapping_tracks _ mapping
                    (mkMerged ∅ (shardingOf st) (counterOf st))
                    (fun name => routed name (fetched (trace st))) H)].
      - intros name. rewrite Hf, routed_app. simpl. lia.
      - intros name. specialize (Hb1 name). rewrite Hf, routed_app in Hb1.
        simpl in Hb1. lia. }
    destruct e1 as [err|].
    + injection Hrun as <- <- <-. exact H1.
    + exact (IH _ _ _ _ _ Hrun Hb H1).
Qed.

Lemma initLoop_checks iw rest : forall n st st' rest',
  initLoop iw n rest st = Ok (st', rest', None) ->
  rest' = [] /\
  exists per, checks st' = checks st ++ per /\
              length per = (5 * length rest)%nat /\
              length (fetched (trace st')) =
              (length (fetched (trace st)) + length rest)%nat.
Proof.
  induction rest as [|i rest IH]; intros n st st' rest' Hrun; simpl in Hrun.
  - injection Hrun as <- <-. split; [reflexivity|]. exists [].
    rewrite app_nil_r. simpl. split; [reflexivity|]. split; [reflexivity | lia].
  - destruct (initInstance iw n st i) as [[st1 e1]|k] eqn:E1;
      cbn [rbind] in Hrun; [| discriminate].
    destruct e1 as [err|]; [discriminate|].
    destruct (initInstance_cases iw n st i st1 None E1)
      as [(Hne & _) | (_ & mapping & m & five & _ & _ & _ & Hc & Hl & Hf)];
      [contradiction|].
    destruct (IH _ _ _ _ Hrun) as (-> & per & Hper & Hlen & Hfl).
    split; [reflexivity|]. exists (five ++ per).
    rewrite Hper, Hc, <- app_assoc. split; [reflexivity|].
    rewrite length_app, Hl, Hlen, Hfl, Hf, length_app. simpl. split; lia.
Qed.

Lemma fold_left_registerOne iw st entries : forall l,
  fold_left (registerOne iw st) entries l
  = l ++ map (shardingCheck iw (dbs st))
           (List.filter (fun e => negb (default 0 (counterOf st !! fst e) <=? 1)%Z)
                        entries).
Proof.
  induction entries as [|e entries IH]; intros l; simpl; [symmetry; apply app_nil_r|].
  rewrite IH. unfold registerOne at 1.
  destruct (default 0%Z (counterOf st !! fst e) <=? 1)%Z; simpl; [reflexivity|].
  rewrite <- app_assoc. reflexivity.
Qed.


Lemma rangeSharding_NoDup iw sh :
  rangesEachOnce iw -> NoDup (map fst (rangeSharding iw sh)).
Proof.
  intros Hr.
  assert (Hp : map fst (rangeSharding iw sh) ≡ₚ map fst (map_to_list sh))
    by (apply Permutation_map, Hr).
  rewrite Hp. exact (NoDup_fst_map_to_list sh).
Qed.

Lemma rangeSharding_In iw sh name set :
  rangesEachOnce iw -> (In (name, set) (rangeSharding iw sh) <-> sh !! name = Some set).
Proof.
  intros Hr. rewrite <- elem_of_map_to_list, <- list_elem_of_In.
  split; intros H; [rewrite <- (Hr sh) | rewrite (Hr sh)]; exact H.
Qed.

Lemma NoDup_map_filter {A B} (g : A -> B) (P : A -> bool) (l : list A) :
  NoDup (map g l) -> NoDup (map g (List.filter P l)).
Proof.
  induction l as [|x l IH]; simpl; intros H; [constructor|].
  apply NoDup_cons in H as (Hx & Hl). destruct (P x); simpl; [| auto].
  apply NoDup_cons. split; [| auto].
  rewrite list_elem_of_In in *.
  intros Hin. apply Hx. apply in_map_iff in Hin as (y & <- & Hy).
  apply in_map. apply filter_In in Hy. tauto.
Qed.

(** X21. When [Init] returns no error, the check list has grown by five
    checks for each instance and then by one sharding check for each
    target name to which the instances route more than one table, all
    instances taken together, and by no other sharding check. *)
Theorem Init_registers_sharding (iw : initWorld) (c c' : Checker) (tr : initTrace) :
  rangesEachOnce iw ->
  Init iw c = Ok (c', None, tr) ->
  (forall name, routed name (fetched tr) < 2 ^ 63)%Z ->
  exists perInstance dbsF entries,
    checkList c' = checkList c ++ perInstance ++ map (shardingCheck iw dbsF) entries /\
    length perInstance = (5 * length (instances c))%nat /\
    length (fetched tr) = length (instances c) /\
    NoDup (map fst entries) /\
    forall name, In name (map fst entries) <-> (1 < routed name (fetched tr))%Z.
Proof.
  intros Hr Hinit Hb. unfold Init in Hinit.
  destruct (initLoop iw 0 (instances c) _) as [[[st rest] e]|k] eqn:El;
    cbn [rbind] in Hinit; [| discriminate].
  destruct e as [err|]; [discriminate|]. injection Hinit as <- <-.
  destruct (initLoop_checks _ _ _ _ _ _ El) as (-> & per & Hper & Hlen & Hfl).
  assert (Ht : tracks (shardingOf st) (counterOf st)
                      (fun name => routed name (fetched (trace st)))).
  { apply (initLoop_tracks _ _ _ _ _ _ _ El Hb). intros name. simpl.
    rewrite lookup_empty. simpl. split; [lia|]. split; [reflexivity|].
    split; [intros [x Hx]; discriminate | lia]. }
  simpl in Hper, Hfl.
  exists per, (dbs st),
    (List.filter (fun e => negb (default 0 (counterOf st !! fst e) <=? 1)%Z)
                 (rangeSharding iw (shardingOf st))).
  split; [| split; [exact Hlen | split; [exact Hfl | split]]].
  - simpl. unfold registerSharding. rewrite fold_left_registerOne, Hper, <- app_assoc.
    reflexivity.
  - apply NoDup_map_filter, rangeSharding_NoDup, Hr.
  - intros name. destruct (Ht name) as (H0 & Hc & Hs). split.
    + intros Hin. apply in_map_iff in Hin as ([n set] & <- & Hin).
      apply filter_In in Hin as (_ & Hgt). simpl in Hgt.
      destruct (Ht n) as (_ & Hcn & _). rewrite Hcn in Hgt.
      apply negb_true_iff, Z.leb_gt in Hgt. simpl. exact Hgt.
    + intros Hgt. destruct (proj2 Hs ltac:(lia)) as (set & Hset).
      apply in_map_iff. exists (name, set). split; [reflexivity|].
      apply filter_In. split; [apply (rangeSharding_In iw _ _ _ Hr); exact Hset|].
      simpl. rewrite Hc. apply negb_true_iff, Z.leb_gt. exact Hgt.
Qed.

Lemma Init_registers_sharding_witness :
  exists c' tr perInstance dbsF entries,
    Init exampleInitWorld (NewChecker [0; 1; 2]) = Ok (c', None, tr) /\
    checkList c' = perInstance ++ map (shardingCheck exampleInitWorld dbsF) entries /\
    length perInstance = 15%nat /\
    In "orders"%string (map fst entries) /\ ~ In "users"%string (map fst entries).
Proof.
  assert (Hinit : exists c' tr,
             Init exampleInitWorld (NewChecker [0; 1; 2]) = Ok (c', None, tr) /\
             fetched tr = [[("orders", [filter.mkTable "shop_a" "orders"])];
                           [("orders", [filter.mkTable "shop_b" "orders"]);
                            ("users", [filter.mkTable "shop_b" "users"])];
                           [("orders", [filter.mkTable "shop_c" "orders"])]]%string).
  { do 2 eexists. split; vm_compute; reflexivity. }
  destruct Hinit as (c' & tr & Hinit & Hf).
  destruct (Init_registers_sharding exampleInitWorld (NewChecker [0; 1; 2]) c' tr)
    as (per & dbsF & entries & Hl & Hlen & _ & _ & Hiff).
  - intros m. reflexivity.
  - exact Hinit.
  - intros name. rewrite Hf. unfold routed, routedIn.
    cbn [fold_right fst snd length].
    destruct (String.eqb "orders" name), (String.eqb "users" name); simpl; lia.
  - exists c', tr, per, dbsF, entries. split; [exact Hinit|].
    split; [exact Hl|]. split; [exact Hlen|]. split.
    + apply Hiff. rewrite Hf. vm_compute. reflexivity.
    + intros Hin. apply Hiff in Hin. rewrite Hf in Hin. vm_compute in Hin. discriminate.
Defined.

Lemma Init_owns_what_it_opened_witness :
  exists c' tr,
    Init exampleInitWorld (NewChecker [0; 1; 2]) = Ok (c', None, tr) /\
    closedDBs (snd (Close exampleWorld c')) = [10; 11; 12; 13; 14; 15].
Proof.
  assert (Hinit : exists c' tr,
             Init exampleInitWorld (NewChecker [0; 1; 2]) = Ok (c', None, tr) /\
             opened tr = [10; 11; 12; 13; 14; 15]).
  { do 2 eexists. split; vm_compute; reflexivity. }
  destruct Hinit as (c' & tr & Hinit & Ho).
  exists c', tr. split; [exact Hinit|]. rewrite <- Ho.
  apply (proj2 (Init_owns_what_it_opened exampleInitWorld exampleWorld
                  (NewChecker [0; 1; 2]) c' None tr
                  ltac:(intros i Hi; vm_compute in Hi;
                        repeat (destruct Hi as [<- | Hi]; [split; reflexivity|]);
                        destruct Hi)
                  Hinit)).
  reflexivity.
Defined.

(** X22. Rules that [filter.New] cannot compile make [Init] panic: when
    the black and white list of the first instance has an empty pattern,
    [Init] panics instead of returning an error. *)
Theorem Init_panics_on_empty_pattern (iw : initWorld) (c : Checker)
        (i : mysqlInstance) (rest : list mysqlInstance) (r : filter.Rules) :
  instances c = i :: rest -> BWListOf iw (cfg i) = Some r ->
  In ""%string (FilterSpec.patternsOf r) ->
  exists k, Init iw c = Panic k.
Proof.
  intros Hi Hr Hin. unfold Init. rewrite Hi. cbn [initLoop]. unfold initInstance.
  rewrite Hr, FilterFacts.New_forRange.
  destruct (FilterFacts.forRange_addOneRegex_empty (FilterSpec.patternsOf r)
              (filter.mkFilter ∅ (Some r)) (lookup_empty _) Hin) as ((k & ->) & _).
  exists k. reflexivity.
Qed.

Lemma Init_panics_on_empty_pattern_witness :
  exists k,
    Init (mkInitWorld (fun _ => "a:3306"%string)
            (fun _ => Some (filter.mkRules [] ["shop"; ""]%string [] []))
            (fun c => (c, None)) (fun _ => "src"%string) (fun _ => "dst"%string)
            (fun n _ => (Some n, None)) (fun _ _ _ => ([], None))
            (fun _ _ => 1) (fun _ _ => 2) (fun _ _ => 3) (fun _ _ => 4)
            (fun _ _ _ => 5) (fun _ _ _ => 6) map_to_list)
         (NewChecker [0]) = Panic k.
Proof.
  eapply Init_panics_on_empty_pattern.
  - reflexivity.
  - reflexivity.
  - right. left. reflexivity.
Defined.


Lemma initInstance_visited iw n st i st' e :
  initInstance iw n st i = Ok (st', e) ->
  exists i', visited st' = visited st ++ [i'] /\ cfg i' = cfg i.
Proof.
  intros Hrun. unfold initInstance in Hrun.
  destruct (filter.New _) as [bw|k]; cbn [rbind] in Hrun; [| discriminate].
  destruct (NewTableRouter iw (cfg i)) as [r [err|]].
  { injection Hrun as <- <-. eexists. split; reflexivity. }
  destruct (OpenDB iw (2 * n) (sourceInfoOf iw (cfg i))) as [sdb [err|]].
  { injection Hrun as <- <-. eexists. split; reflexivity. }
  destruct (OpenDB iw (2 * n + 1) (targetInfoOf iw (cfg i))) as [tdb [err|]].
  { injection Hrun as <- <-. eexists. split; reflexivity. }
  destruct (FetchTargetDoTables iw sdb bw r) as [mapping [err|]].
  { injection Hrun as <- <-. eexists. split; reflexivity. }
  injection Hrun as <- <-. eexists. split; reflexivity.
Qed.

Lemma initLoop_error iw rest : forall n st st' rest' err,
  initLoop iw n rest st = Ok (st', rest', Some err) ->
  exists before failing per,
    rest = before ++ failing :: rest' /\
    checks st' = checks st ++ per /\
    length per = (5 * length before)%nat /\
    length (fetched (trace st')) = (length (fetched (trace st)) + length before)%nat /\
    length (visited st') = (length (visited st) + S (length before))%nat /\
    map cfg (visited st') = map cfg (visited st) ++ map cfg (before ++ [failing]).
Proof.
  induction rest as [|i rest IH]; intros n st st' rest' err Hrun; simpl in Hrun;
    [discriminate|].
  destruct (initInstance iw n st i) as [[st1 e1]|k] eqn:E1;
    cbn [rbind] in Hrun; [| discriminate].
  destruct (initInstance_visited iw n st i st1 e1 E1) as (i' & Hv & Hcfg).
  destruct e1 as [err1|].
  - injection Hrun as <- <- <-.
    destruct (initInstance_cases iw n st i st1 (Some err1) E1)
      as [(_ & _ & _ & _ & Hc & Hf) | (Hn & _)]; [| discriminate].
    exists [], i, []. rewrite Hc, Hf, Hv, app_nil_r, length_app, map_app. simpl.
    rewrite Hcfg. repeat split; lia.
  - destruct (initInstance_cases iw n st i st1 None E1)
      as [(Hne & _) | (_ & mapping & m & five & _ & _ & _ & Hc & Hl & Hf)];
      [contradiction|].
    destruct (IH _ _ _ _ _ Hrun)
      as (before & failing & per & -> & Hper & Hlen & Hfl & Hvl & Hvc).
    exists (i :: before), failing, (five ++ per).
    rewrite Hper, Hc, <- app_assoc. split; [reflexivity|]. split; [reflexivity|].
    rewrite length_app, Hl, Hlen, Hfl, Hf, length_app, Hvl, Hvc, Hv, length_app, map_app.
    simpl. rewrite Hcfg, <- app_assoc. repeat split; lia.
Qed.

(** X23. When [Init] returns an error, it has stopped at the instance that
    failed: the instances after it are as they were, the check list has
    grown by five checks for each instance before it and by no sharding
    check, and the configurations of the instances are unchanged. *)
Theorem Init_stops_at_first_error (iw : initWorld) (c c' : Checker)
        (err : nat) (tr : initTrace) :
  Init iw c = Ok (c', Some err, tr) ->
  exists before failing failing' after per,
    instances c = before ++ failing :: after /\
    instances c' = firstn (length before) (instances c') ++ failing' :: after /\
    cfg failing' = cfg failing /\
    map cfg (instances c') = map cfg (instances c) /\
    checkList c' = checkList c ++ per /\
    length per = (5 * length before)%nat /\
    length (fetched tr) = length before.
Proof.
  intros Hinit. unfold Init in Hinit.
  destruct (initLoop iw 0 (instances c) _) as [[[st rest] e]|k] eqn:El;
    cbn [rbind] in Hinit; [| discriminate].
  destruct e as [e0|]; [| discriminate]. injection Hinit as <- <- <-.
  destruct (initLoop_error _ _ _ _ _ _ _ El)
    as (before & failing & per & Hi & Hper & Hlen & Hfl & Hvl & Hvc).
  simpl in Hper, Hfl, Hvl, Hvc.
  assert (Hsplit : exists vb f', visited st = vb ++ [f'] /\ length vb = length before /\
                                 cfg f' = cfg failing).
  { destruct (visited st) as [|x xs] eqn:Ev using rev_ind; [simpl in Hvl; lia|].
    clear IHxs. exists xs, x. split; [reflexivity|].
    rewrite length_app in Hvl. simpl in Hvl. split; [lia|].
    rewrite !map_app in Hvc. simpl in Hvc.
    apply app_inj_tail in Hvc as (_ & Hx). exact Hx. }
  destruct Hsplit as (vb & f' & Hv & Hvbl & Hcf).
  exists before, failing, f', rest, per. simpl.
  split; [exact Hi|]. split.
  - rewrite Hv, <- app_assoc. simpl.
    rewrite <- Hvbl, firstn_app, Nat.sub_diag, firstn_all. simpl.
    rewrite app_nil_r. reflexivity.
  - split; [exact Hcf|]. split.
    + rewrite map_app, Hvc, Hi, !map_app. simpl. rewrite <- app_assoc. reflexivity.
    + split; [exact Hper|]. split; [exact Hlen | exact Hfl].
Qed.

Lemma Init_stops_at_first_error_witness :
  let iw := mkInitWorld (fun _ => "a:3306"%string) (fun _ => None)
              (fun c => (c, None)) (fun _ => "src"%string) (fun _ => "dst"%string)
              (fun n _ => if Nat.eqb n 3 then (None, Some 42) else (Some n, None))
              (fun _ _ _ => ([], None))
              (fun _ _ => 1) (fun _ _ => 2) (fun _ _ => 3) (fun _ _ => 4)
              (fun _ _ _ => 5) (fun _ _ _ => 6) map_to_list in
  exists c' tr per,
    Init iw (NewChecker [0; 1; 2]) = Ok (c', Some 42, tr) /\
    checkList c' = per /\ length per = 5%nat.
Proof.
  intros iw.
  assert (Hinit : exists c' tr, Init iw (NewChecker [0; 1; 2]) = Ok (c', Some 42, tr) /\
                                length (fetched tr) = 1%nat).
  { do 2 eexists. split; vm_compute; reflexivity. }
  destruct Hinit as (c' & tr & Hinit & Hf).
  destruct (Init_stops_at_first_error iw _ c' 42 tr Hinit)
    as (before & failing & failing' & after & per & _ & _ & _ & _ & Hc & Hl & Hfl).
  exists c', tr, per. split; [exact Hinit|]. split; [exact Hc|].
  rewrite Hl, <- Hfl, Hf. reflexivity.
Defined.

End InitFacts.

(* ===================================================================== *)
(** * Properties of the test client *)
(* ===================================================================== *)

Module DmctlFacts.
Import dmctl.

Lemma checkWorkers_None content wps :
  checkWorkers content wps = None <-> forall wp, In wp wps -> Result wp = true.
Proof.
  induction wps as [|wp wps IH]; simpl.
  - split; [intros _ wp [] | reflexivity].
  - destruct (Result wp) eqn:E; simpl.
    + rewrite IH. split.
      * intros H x [<- | Hx]; auto.
      * intros H x Hx. apply H. right. exact Hx.
    + split; [discriminate|]. intros H.
      rewrite (H wp (or_introl eq_refl)) in E. discriminate.
Qed.

Lemma checkWorkers_first content pre wp post :
  (forall x, In x pre -> Result x = true) -> Result wp = false ->
  checkWorkers content (pre ++ wp :: post)
  = Some (Errorf "fail to start task %v: %s" [content; Msg wp]).
Proof.
  intros Hpre Hwp. induction pre as [|x pre IH]; simpl.
  - rewrite Hwp. reflexivity.
  - rewrite (Hpre x (or_introl eq_refl)). simpl. apply IH.
    intros y Hy. apply Hpre. right. exact Hy.
Qed.

(** X24. [StartTask] returns nil exactly when the configuration file is
    read, the call of the master returns no error and every worker of the
    response reports success; when the first worker that reports failure
    is known, the error carries the message of that worker. *)
Theorem StartTask_nil_iff (cli : client) (configFile : string) (workers : list string) :
  (StartTask cli configFile workers = None <->
   exists content resp,
     ReadFile cli configFile = (content, None) /\
     StartTaskRPC cli content workers = (resp, None) /\
     forall wp, In wp resp -> Result wp = true) /\
  (forall content pre wp post,
     ReadFile cli configFile = (content, None) ->
     StartTaskRPC cli content workers = (pre ++ wp :: post, None) ->
     (forall x, In x pre -> Result x = true) -> Result wp = false ->
     StartTask cli configFile workers
     = Some (Errorf "fail to start task %v: %s" [content; Msg wp])).
Proof.
  unfold StartTask. split.
  - destruct (ReadFile cli configFile) as [content [err|]].
    { split; [discriminate | intros (c & r & H & _); discriminate]. }
    destruct (StartTaskRPC cli content workers) as [resp [err|]] eqn:Erpc.
    { split; [discriminate|]. intros (c & r & [= <-] & H & _).
      rewrite Erpc in H. discriminate. }
    rewrite checkWorkers_None. split.
    + intros H. exists content, resp. auto.
    + intros (c & r & [= <-] & H & Hall). rewrite Erpc in H.
      injection H as <-. exact Hall.
  - intros content pre wp post -> -> Hpre Hwp.
    apply checkWorkers_first; assumption.
Qed.

Lemma StartTask_nil_iff_witness :
  let cli := mkClient (fun _ => ("name: test"%string, None))
                      (fun _ ws => (map (fun w => mkWorkerResponse
                                                    (negb (String.eqb w "w2")) w
                                                    (if String.eqb w "w2"
                                                     then "no such source"
                                                     else ""))%string ws, None)) in
  StartTask cli "task.yaml" ["w1"; "w2"; "w3"]%string
  = Some (Errorf "fail to start task %v: %s" ["name: test"; "no such source"]%string).
Proof.
  intros cli.
  apply (proj2 (StartTask_nil_iff cli "task.yaml" ["w1"; "w2"; "w3"]%string)
           "name: test"%string
           [mkWorkerResponse true "w1" ""]
           (mkWorkerResponse false "w2" "no such source")
           [mkWorkerResponse true "w3" ""]).
  - reflexivity.
  - reflexivity.
  - intros x [<- | []]. reflexivity.
  - reflexivity.
Defined.

End DmctlFacts.
